(** * svdconv-check: the SVDConv message parser and the annotation batcher

    A shallow embedding of [src/svdconv.ts] (the two-line message parser
    [SVDConvParser] and [SVDConv.run]) and of [src/main.ts]
    ([getAnnotations], [uploadResult], [main]), followed by the properties
    of the parsing and batching pipeline.

    Conventions of the embedding:
    - a JavaScript string is the list of its UTF-16 code units ([jsstring]);
    - a JavaScript [number] that the program can hold as a line number is
      [NaN], [Infinity] or a non-negative integer;
    - a [Map<number, Array<Message>>] is an association list in insertion
      order, which is the order [Map.prototype.keys] iterates in;
    - code that can throw returns an [outcome];
    - calls to the outside world (the tool, the checks API, the log) are
      recorded in a trace of [event]s. *)

From Stdlib Require Import String Ascii.
From Stdlib Require Import List ZArith NArith Bool Arith Lia.
From Equations Require Import Equations.
Import ListNotations.

Set Implicit Arguments.

(* ===================================================================== *)
(** ** JavaScript strings *)
(* ===================================================================== *)

Module JS.

(** A string is a sequence of UTF-16 code units. *)
Definition jsstring := list N.

(** String literals of the source, written as Rocq strings. *)
Definition lit (s : string) : jsstring :=
  List.map N_of_ascii (list_ascii_of_string s).
Arguments lit s%_string.

Definition jsstring_eqb (a b : jsstring) : bool :=
  if list_eq_dec N.eq_dec a b then true else false.

(** [WhiteSpace] and [LineTerminator] of ECMAScript: the characters matched
    by [\s] (so excluded by [\S]) and stripped by [String.prototype.trim]. *)
Definition isWhiteSpace (c : N) : bool :=
  ((9 <=? c) && (c <=? 13)          (* TAB LF VT FF CR *)
   || (c =? 32)                      (* SP *)
   || (c =? 160)                     (* NBSP *)
   || (c =? 5760)                    (* U+1680 *)
   || ((8192 <=? c) && (c <=? 8202)) (* U+2000 .. U+200A *)
   || (c =? 8232) || (c =? 8233)     (* LS PS *)
   || (c =? 8239)                    (* U+202F *)
   || (c =? 8287)                    (* U+205F *)
   || (c =? 12288)                   (* U+3000 *)
   || (c =? 65279))%N.               (* U+FEFF *)

(** [\S] *)
Definition isNonSpace (c : N) : bool := negb (isWhiteSpace c).

(** [\d] *)
Definition isDigit (c : N) : bool := ((48 <=? c) && (c <=? 57))%N.

(** [s.startsWith(t)], returning what follows the prefix. *)
Fixpoint stripPrefix (t s : jsstring) : option jsstring :=
  match t, s with
  | [], _ => Some s
  | a :: t', b :: s' => if (a =? b)%N then stripPrefix t' s' else None
  | _ :: _, [] => None
  end.

Definition startsWith (s t : jsstring) : bool :=
  match stripPrefix t s with Some _ => true | None => false end.

Fixpoint dropWhile (p : N -> bool) (s : jsstring) : jsstring :=
  match s with
  | c :: s' => if p c then dropWhile p s' else s
  | [] => []
  end.

(** [s.trim()] *)
Definition trim (s : jsstring) : jsstring :=
  rev (dropWhile isWhiteSpace (rev (dropWhile isWhiteSpace s))).

(** [s.toLowerCase()] on the code units [A]..[Z]; the parser applies it to
    capture 1 of the header pattern only, which is one of the three
    upper-case ASCII keywords. *)
Definition toLowerCase (s : jsstring) : jsstring :=
  List.map (fun c => if ((65 <=? c) && (c <=? 90))%N then (c + 32)%N else c) s.

(** [s.split("\n")]: the pieces between line feeds; a string that ends with
    a line feed has an empty last piece. *)
Fixpoint split_nl (s : jsstring) : list jsstring :=
  match s with
  | [] => [[]]
  | c :: s' =>
      if (c =? 10)%N then [] :: split_nl s'
      else match split_nl s' with
           | l :: ls => (c :: l) :: ls
           | [] => [[c]]
           end
  end.

(** [pieces.join("\n")], the inverse of [split_nl] on pieces without line
    feeds; used to write buffers line by line. *)
Fixpoint join_nl (ls : list jsstring) : jsstring :=
  match ls with
  | [] => []
  | [l] => l
  | l :: ls' => l ++ 10%N :: join_nl ls'
  end.

(* --------------------------------------------------------------------- *)
(** *** Numbers *)

(** The numbers the program stores in [Message.line] and uses as map keys:
    [Number(undefined)] is [NaN]; [Number] of a run of decimal digits is the
    nearest double, a non-negative integer or [Infinity].  Map keys are
    compared by SameValueZero, under which [NaN] equals itself, so key
    equality is equality of this type. *)
Inductive number := NaN | Infinity | Fin (z : Z).

Definition number_eq_dec (a b : number) : {a = b} + {a <> b}.
Proof. decide equality. apply Z.eq_dec. Defined.

Definition number_eqb (a b : number) : bool :=
  if number_eq_dec a b then true else false.

Definition isNaN (x : number) : bool :=
  match x with NaN => true | _ => false end.

(** The mathematical value of a run of decimal digits. *)
Definition decimal (ds : jsstring) : Z :=
  fold_left (fun acc c => (10 * acc + (Z.of_N c - 48))%Z) ds 0%Z.

(** Round a non-negative integer to the nearest double, ties to even. *)
Definition roundToDouble (n : Z) : number :=
  (if n <? 2 ^ 53 then Fin n
   else
     let e := Z.log2 n - 52 in
     let q := n / 2 ^ e in
     let r := n mod 2 ^ e in
     let half := 2 ^ (e - 1) in
     let q' := if (half <? r) || ((r =? half) && Z.odd q) then q + 1 else q in
     if 2 ^ 1024 <=? q' * 2 ^ e then Infinity else Fin (q' * 2 ^ e))%Z.

(** [Number(v)] for [v] a capture of [\d+] or [undefined]. *)
Definition Number (v : option jsstring) : number :=
  match v with
  | None => NaN
  | Some ds => roundToDouble (decimal ds)
  end.

(* --------------------------------------------------------------------- *)
(** *** Regular expressions *)

(** The fragment of the regular-expression language that [MESSAGE_PATTERN]
    uses, with the backtracking semantics of ECMAScript: alternatives are
    tried left to right, [+] and [?] are greedy, and a capture records the
    text its group consumed on the path that succeeds. *)
Inductive regex :=
| Lit (t : jsstring)            (* literal text *)
| Plus (p : N -> bool)          (* [c+] for a character class [c] *)
| Seq (r1 r2 : regex)           (* [r1 r2] *)
| Alt (r1 r2 : regex)           (* [r1|r2] *)
| Opt (r : regex)               (* [r?] *)
| Grp (i : nat) (r : regex).    (* [(r)], capture number [i] *)

Definition captures := nat -> option jsstring.

Definition no_captures : captures := fun _ => None.

Definition set_capture (i : nat) (v : jsstring) (c : captures) : captures :=
  fun j => if Nat.eqb j i then Some v else c j.

(** The text consumed between input [s] and its suffix [s']. *)
Definition consumed (s s' : jsstring) : jsstring :=
  firstn (length s - length s') s.

(** [c*] followed by the continuation [k]: longest run first, then shorter
    ones. *)
Fixpoint star (A : Type) (p : N -> bool) (s : jsstring)
    (k : jsstring -> option A) : option A :=
  match s with
  | c :: s' =>
      if p c then
        match star p s' k with
        | Some r => Some r
        | None => k s
        end
      else k s
  | [] => k s
  end.

Fixpoint rmatch (r : regex) (s : jsstring) (caps : captures)
    (k : jsstring -> captures -> option captures) : option captures :=
  match r with
  | Lit t =>
      match stripPrefix t s with
      | Some s' => k s' caps
      | None => None
      end
  | Plus p =>
      match s with
      | c :: s' => if p c then star p s' (fun s'' => k s'' caps) else None
      | [] => None
      end
  | Seq r1 r2 => rmatch r1 s caps (fun s' caps' => rmatch r2 s' caps' k)
  | Alt r1 r2 =>
      match rmatch r1 s caps k with
      | Some res => Some res
      | None => rmatch r2 s caps k
      end
  | Opt r1 =>
      match rmatch r1 s caps k with
      | Some res => Some res
      | None => k s caps
      end
  | Grp i r1 =>
      rmatch r1 s caps (fun s' caps' => k s' (set_capture i (consumed s s') caps'))
  end.

(** A sequence of parts, [r1 r2 ... rn]. *)
Definition cat (rs : list regex) : regex := fold_right Seq (Lit []) rs.

(** [s.match(/^r/)] for a pattern without the [g] and [m] flags: the pattern
    starts with [^], so the only candidate position is the start of [s];
    [None] is [null]. *)
Definition String_match (s : jsstring) (r : regex) : option captures :=
  rmatch r s no_captures (fun _ caps => Some caps).

End JS.

Export JS.


(* ===================================================================== *)
(** ** svdconv.ts: the message parser *)
(* ===================================================================== *)

(** What a call that can throw produces. *)
Inductive error :=
| TypeError            (* reading a property of [null] or [undefined] *)
| OtherError.          (* any other error: [new Error(...)], a failed download,
                          a missing input, a failed request *)

Inductive outcome (A : Type) :=
| Returned (a : A)
| Thrown (e : error).
Arguments Thrown {A} e.

(** [interface Stats] *)
Record Stats := { notes : nat; errors : nat; warnings : nat }.

(** [MESSAGE_PATTERN]:
    [/^\*\*\* (INFO|ERROR|WARNING) (M\d+): \S+( \(Line (\d+)\))?/] *)
Definition MESSAGE_PATTERN : regex :=
  cat [ Lit (lit "*** ");
        Grp 1 (Alt (Lit (lit "INFO")) (Alt (Lit (lit "ERROR")) (Lit (lit "WARNING"))));
        Lit (lit " ");
        Grp 2 (cat [Lit (lit "M"); Plus isDigit]);
        Lit (lit ": ");
        Plus isNonSpace;
        Opt (Grp 3 (cat [Lit (lit " (Line "); Grp 4 (Plus isDigit); Lit (lit ")")])) ].

(** [interface Message] *)
Record Message := {
  level : jsstring;
  code : jsstring;
  line : number;
  message : jsstring
}.

(** The map of [Result.messages]: the entries in insertion order.  A
    well-formed map has pairwise distinct keys ([Map_ok]). *)
Definition MessageMap := list (number * list Message).

(** [interface Result] *)
Record Result := {
  messages : MessageMap;
  stats : Stats
}.

(** [enum ParserState] *)
Inductive ParserState := MESSAGE_LINE | DESCRIPTION_LINE | NOISE.

Definition ParserState_eqb (a b : ParserState) : bool :=
  match a, b with
  | MESSAGE_LINE, MESSAGE_LINE => true
  | DESCRIPTION_LINE, DESCRIPTION_LINE => true
  | NOISE, NOISE => true
  | _, _ => false
  end.

(** The fields of [class SVDConvParser].  [_level], [_code] and [_line] are
    unassigned until the first header line; they are read in state
    [DESCRIPTION_LINE] only, which is entered by the assignment of all
    three, so the values they start with here are never observed. *)
Record SVDConvParser := {
  state : ParserState;
  parser_stats : Stats;
  _level : jsstring;
  _code : jsstring;
  _line : number
}.

(** [constructor()] *)
Definition new_SVDConvParser : SVDConvParser :=
  {| state := NOISE;
     parser_stats := {| notes := 0; errors := 0; warnings := 0 |};
     _level := []; _code := []; _line := NaN |}.

Definition set_state (p : SVDConvParser) (s : ParserState) : SVDConvParser :=
  {| state := s; parser_stats := parser_stats p;
     _level := _level p; _code := _code p; _line := _line p |}.

(** The three-way increment of [this.stats] on a header line. *)
Definition count_level (lvl : jsstring) (st : Stats) : Stats :=
  if jsstring_eqb lvl (lit "info") then
    {| notes := notes st + 1; errors := errors st; warnings := warnings st |}
  else if jsstring_eqb lvl (lit "error") then
    {| notes := notes st; errors := errors st + 1; warnings := warnings st |}
  else if jsstring_eqb lvl (lit "warning") then
    {| notes := notes st; errors := errors st; warnings := warnings st + 1 |}
  else st.

(** [parseMessage(line)]: the parser after the call and the value returned
    ([None] is [null]), or the error thrown.  [line.match(...)!] is [null]
    when the pattern does not match, and reading [match[1]] then throws a
    [TypeError].  Captures 1 and 2 take part in every match of the pattern
    ([MESSAGE_PATTERN_inv] below), so the branch for a missing one is never
    taken. *)
Definition parseMessage (this : SVDConvParser) (ln : jsstring)
    : outcome (SVDConvParser * option Message) :=
  let this :=
    if ParserState_eqb (state this) NOISE && startsWith ln (lit "***")
    then set_state this MESSAGE_LINE else this in
  if ParserState_eqb (state this) MESSAGE_LINE then
    match String_match ln MESSAGE_PATTERN with
    | None => Thrown TypeError
    | Some m =>
        match m 1, m 2 with
        | Some m1, Some m2 =>
            let lvl := toLowerCase m1 in
            Returned
              ({| state := DESCRIPTION_LINE;
                  parser_stats := count_level lvl (parser_stats this);
                  _level := lvl;
                  _code := m2;
                  _line := Number (m 4) |},
               None)
        | _, _ => Thrown TypeError
        end
    end
  else if ParserState_eqb (state this) DESCRIPTION_LINE then
    let description := trim ln in
    Returned
      (set_state this NOISE,
       Some {| level := _level this; code := _code this;
               line := _line this; message := description |})
  else Returned (this, None).

(* --------------------------------------------------------------------- *)
(** *** [Map<number, Array<Message>>] *)

(** [m.get(k)]; [None] is [undefined]. *)
Fixpoint Map_get (m : MessageMap) (k : number) : option (list Message) :=
  match m with
  | [] => None
  | (k', v) :: m' => if number_eqb k' k then Some v else Map_get m' k
  end.

(** [m.set(k, v)]: an existing key keeps its place, a new one goes last. *)
Fixpoint Map_set (m : MessageMap) (k : number) (v : list Message) : MessageMap :=
  match m with
  | [] => [(k, v)]
  | (k', v') :: m' =>
      if number_eqb k' k then (k, v) :: m' else (k', v') :: Map_set m' k v
  end.

(** [m.delete(k)] *)
Fixpoint Map_delete (m : MessageMap) (k : number) : MessageMap :=
  match m with
  | [] => []
  | (k', v) :: m' =>
      if number_eqb k' k then Map_delete m' k else (k', v) :: Map_delete m' k
  end.

(** [m.size] *)
Definition Map_size (m : MessageMap) : nat := length m.

(** [m.keys().next()?.value]: the key inserted first; [None] is [undefined]. *)
Definition Map_first_key (m : MessageMap) : option number :=
  match m with
  | [] => None
  | (k, _) :: _ => Some k
  end.

(** [a.pop()]: the last element ([None] is [undefined]) and the array
    without it. *)
Definition Array_pop (A : Type) (a : list A) : option A * list A :=
  match rev a with
  | [] => (None, a)
  | x :: r => (Some x, rev r)
  end.

(* --------------------------------------------------------------------- *)
(** *** [SVDConvParser.parseMessages] *)

(** The body of [for (let line of lines)]: [ary] is the array stored under
    the message's line, or a fresh one, which is stored when empty; the
    [push] then changes the array the map holds. *)
Definition store_message (msgs : MessageMap) (msg : Message) : MessageMap :=
  let ary := match Map_get msgs (line msg) with Some a => a | None => [] end in
  let msgs := if length ary =? 0 then Map_set msgs (line msg) ary else msgs in
  Map_set msgs (line msg) (ary ++ [msg]).

Fixpoint parse_lines (this : SVDConvParser) (msgs : MessageMap)
    (lines : list jsstring) : outcome (SVDConvParser * MessageMap) :=
  match lines with
  | [] => Returned (this, msgs)
  | ln :: rest =>
      match parseMessage this ln with
      | Thrown e => Thrown e
      | Returned (this', None) => parse_lines this' msgs rest
      | Returned (this', Some msg) => parse_lines this' (store_message msgs msg) rest
      end
  end.

(** [parseMessages(buffer)].  [result.stats] is the parser's own [stats]
    object, so the result carries the counters as they are at the end. *)
Definition parseMessages (this : SVDConvParser) (buffer : jsstring)
    : outcome Result :=
  let this := set_state this NOISE in
  let lines := split_nl buffer in
  match parse_lines this [] lines with
  | Thrown e => Thrown e
  | Returned (this', msgs) =>
      Returned {| messages := msgs; stats := parser_stats this' |}
  end.

(** [SVDConv.parseMessages(input)]: a fresh parser each time; [None] is
    [null]. *)
Definition SVDConv_parseMessages (input : jsstring) : outcome (option Result) :=
  let parser := new_SVDConvParser in
  match parseMessages parser input with
  | Thrown e => Thrown e
  | Returned result => Returned (Some result)
  end.

(* ===================================================================== *)
(** ** main.ts: the annotation batcher *)
(* ===================================================================== *)

(** The object literal pushed by [getAnnotations]. *)
Record Annotation := {
  path : jsstring;
  start_line : number;
  end_line : number;
  annotation_level : jsstring;
  ann_message : jsstring
}.

(** One turn of the [while] loop of [getAnnotations], from the loop test to
    the end of the body; [None] when the loop is left.  [ary?.pop()] changes
    the array the map holds, which [Map_set] writes back. *)
Definition getAnnotations_step (svdPath : jsstring)
    (st : list Annotation * MessageMap) : option (list Annotation * MessageMap) :=
  let '(annotations, messages) := st in
  if (length annotations <? 50) && (0 <? Map_size messages) then
    match Map_first_key messages with
    | Some key =>
        match Map_get messages key with
        | Some ary =>
            let '(msg, ary) := Array_pop ary in
            let messages := Map_set messages key ary in
            let annotations :=
              match msg with
              | Some msg =>
                  let start_line := if isNaN key then Fin 0 else key in
                  let end_line := start_line in
                  let annotation_level :=
                    if jsstring_eqb (level msg) (lit "info") then lit "notice"
                    else if jsstring_eqb (level msg) (lit "warning") then lit "warning"
                    else lit "error" in
                  let message := code msg ++ lit ": " ++ message msg in
                  annotations ++
                    [{| path := svdPath;
                        start_line := start_line;
                        end_line := end_line;
                        annotation_level := annotation_level;
                        ann_message := message |}]
              | None => annotations
              end in
            let messages :=
              if length ary =? 0 then Map_delete messages key else messages in
            Some (annotations, messages)
        | None => Some (annotations, messages)
        end
    | None => None
    end
  else None.

(** The number of loop turns a map can still feed: one per stored message
    and one per key. *)
Fixpoint weight (m : MessageMap) : nat :=
  match m with
  | [] => 0
  | (_, v) :: m' => S (length v) + weight m'
  end.

Lemma weight_Map_delete m k : weight (Map_delete m k) <= weight m.
Proof.
  induction m as [|[k' v] m IH]; simpl; [lia|].
  destruct (number_eqb k' k); simpl; lia.
Qed.

Lemma Array_pop_length (A : Type) (a : list A) :
  length (snd (Array_pop a)) = length a - (match fst (Array_pop a) with Some _ => 1 | None => 0 end).
Proof.
  unfold Array_pop. destruct (rev a) as [|x r] eqn:E; simpl; [lia|].
  rewrite length_rev. rewrite <- (length_rev a), E. simpl. lia.
Qed.

Lemma Array_pop_None (A : Type) (a : list A) :
  fst (Array_pop a) = None -> a = [].
Proof.
  unfold Array_pop. destruct (rev a) as [|x r] eqn:E; simpl; [|discriminate].
  intros _. rewrite <- (rev_involutive a), E. reflexivity.
Qed.

Lemma number_eqb_refl k : number_eqb k k = true.
Proof. unfold number_eqb. destruct (number_eq_dec k k); congruence. Qed.

Lemma number_eqb_eq a b : number_eqb a b = true <-> a = b.
Proof. unfold number_eqb. destruct (number_eq_dec a b); split; congruence. Qed.

Lemma getAnnotations_step_weight svdPath st st' :
  getAnnotations_step svdPath st = Some st' -> weight (snd st') < weight (snd st).
Proof.
  destruct st as [annotations m]. unfold getAnnotations_step.
  destruct ((length annotations <? 50) && (0 <? Map_size m)); [|discriminate].
  destruct m as [|[k v] m]; simpl; [discriminate|].
  rewrite number_eqb_refl.
  pose proof (Array_pop_length v) as Hlen.
  pose proof (@Array_pop_None _ v) as Hnone.
  destruct (Array_pop v) as [msg ary]. simpl in *.
  destruct (length ary =? 0) eqn:E; intros [= <-]; simpl.
  - rewrite number_eqb_refl. pose proof (weight_Map_delete m k). lia.
  - apply Nat.eqb_neq in E. destruct msg; [lia|].
    specialize (Hnone eq_refl). subst v. simpl in *. lia.
Qed.

Definition inspect (A : Type) (a : A) : {b : A | a = b} := exist _ a eq_refl.

(** The [while] loop of [getAnnotations]. *)
Equations? getAnnotations_loop (svdPath : jsstring)
    (st : list Annotation * MessageMap) : list Annotation * MessageMap
    by wf (weight (snd st)) lt :=
  getAnnotations_loop svdPath st with inspect (getAnnotations_step svdPath st) => {
    | exist _ None _ := st;
    | exist _ (Some st') e := getAnnotations_loop svdPath st' }.
Proof.
  match goal with
  | H : _ = Some (?a', ?m') |- _ < weight ?m =>
      match type of H with
      | context [Datatypes.length ?a <? 50] =>
          exact (@getAnnotations_step_weight svdPath (a, m) (a', m') H)
      end
  end.
Qed.

(** [getAnnotations(svdPath, messages)]: the value returned ([None] is
    [null]) and the map as the call leaves it. *)
Definition getAnnotations (svdPath : jsstring) (messages : MessageMap)
    : option (list Annotation) * MessageMap :=
  let '(annotations, messages) := getAnnotations_loop svdPath ([], messages) in
  (if length annotations =? 0 then None else Some annotations, messages).

(** The loop, unfolded once. *)
Lemma getAnnotations_loop_eq svdPath st :
  getAnnotations_loop svdPath st =
  match getAnnotations_step svdPath st with
  | None => st
  | Some st' => getAnnotations_loop svdPath st'
  end.
Proof.
  funelim (getAnnotations_loop svdPath st);
    match goal with
    | e : getAnnotations_step _ _ = _ |- _ => rewrite e
    end; reflexivity.
Qed.

(** Induction along the turns of the loop. *)
Lemma getAnnotations_loop_rec svdPath
    (P : list Annotation * MessageMap -> list Annotation * MessageMap -> Prop) :
  (forall st, getAnnotations_step svdPath st = None -> P st st) ->
  (forall st st' r,
      getAnnotations_step svdPath st = Some st' -> P st' r -> P st r) ->
  forall st, P st (getAnnotations_loop svdPath st).
Proof.
  intros Hstop Hturn st.
  remember (weight (snd st)) as n eqn:Hn.
  revert st Hn. induction n as [n IH] using lt_wf_ind. intros st Hn.
  rewrite getAnnotations_loop_eq.
  destruct (getAnnotations_step svdPath st) as [st'|] eqn:Hstep.
  - apply Hturn with st'; [exact Hstep|].
    apply (IH (weight (snd st'))); [|reflexivity].
    subst n. exact (@getAnnotations_step_weight _ _ _ Hstep).
  - apply Hstop. exact Hstep.
Qed.

Lemma getAnnotations_loop_weight svdPath st :
  weight (snd (getAnnotations_loop svdPath st)) <= weight (snd st).
Proof.
  apply (getAnnotations_loop_rec svdPath (fun st r => weight (snd r) <= weight (snd st))).
  - intros; lia.
  - intros s s' r Hstep Hle. apply getAnnotations_step_weight in Hstep. lia.
Qed.

Lemma getAnnotations_step_first svdPath m :
  (0 <? Map_size m) = true ->
  exists st', getAnnotations_step svdPath ([], m) = Some st'.
Proof.
  intros Hsize. unfold getAnnotations_step. simpl. rewrite Hsize.
  destruct m as [|[k v] m]; simpl in *; [discriminate|].
  rewrite number_eqb_refl. destruct (Array_pop v). eexists. reflexivity.
Qed.

Lemma getAnnotations_weight svdPath m :
  (0 <? Map_size m) = true ->
  weight (snd (getAnnotations svdPath m)) < weight m.
Proof.
  intros Hsize. unfold getAnnotations.
  pose proof (getAnnotations_loop_weight svdPath) as Hle.
  rewrite getAnnotations_loop_eq.
  destruct (getAnnotations_step_first svdPath m Hsize) as [st' Hstep].
  rewrite Hstep. specialize (Hle st').
  apply getAnnotations_step_weight in Hstep.
  destruct (getAnnotations_loop svdPath st') as [annotations m']. simpl in *. lia.
Qed.

(* ===================================================================== *)
(** ** The outside world: the tool, the checks API, the log *)
(* ===================================================================== *)

(** The lines written by [core.info]. *)
Inductive info :=
| InfoResults (errors warnings notes : nat)   (* [SVDConv results: ...] *)
| InfoPath (svdConvPath : jsstring)           (* [svdConvPath: ...] *)
| InfoTest (result_is_null : bool).            (* [test ${result}] *)

(** What the program does to the outside, in order. *)
Inductive event :=
| StartGroup
| EndGroup
| Exec (executable svdPath : jsstring)
| AddPath (svdConvPath : jsstring)            (* the directory of that path *)
| Info (i : info)
| SetFailed
| ChecksCreate (head_sha status : jsstring)
| ChecksUpdate (check_run_id : nat) (status : jsstring)
    (conclusion : option jsstring) (annotations : option (list Annotation)).

(** What the outside answers. *)
Record World := {
  (** [process.platform] *)
  platform : jsstring;
  (** [install()] on a supported platform: the path of the tool, found in the
      cache or downloaded into it, or the error of the download *)
  tool_cache : outcome jsstring;
  (** [core.getInput(name, { required: true })] *)
  input_path : outcome jsstring;
  input_token : outcome jsstring;
  (** [exec.exec(executable, [path], ...)] with [ignoreReturnCode]: the text
      the listeners collect on stdout and on stderr *)
  tool : jsstring -> jsstring -> outcome (jsstring * jsstring);
  (** [github.context] *)
  context_sha : jsstring;
  pull_request_head_sha : option jsstring;
  (** whether the n-th request to the checks API succeeds *)
  checks_api : nat -> bool;
  (** the id [checks.create] answers with *)
  check_run_id : nat
}.

(** The trace so far and the number of requests sent to the checks API. *)
Record IO := { trace : list event; requests : nat }.

Definition M (A : Type) := IO -> IO * outcome A.

Definition ret (A : Type) (a : A) : M A := fun io => (io, Returned a).

Definition throw (A : Type) (e : error) : M A := fun io => (io, Thrown e).
Arguments throw {A} e.

Definition bind (A B : Type) (c : M A) (f : A -> M B) : M B :=
  fun io =>
    match c io with
    | (io', Returned a) => f a io'
    | (io', Thrown e) => (io', Thrown e)
    end.

Definition lift (A : Type) (o : outcome A) : M A := fun io => (io, o).

Definition emit (e : event) : M unit :=
  fun io => ({| trace := trace io ++ [e]; requests := requests io |}, Returned tt).

(** [try { c } finally { f }] for an [f] that does not throw. *)
Definition finally (A : Type) (c : M A) (f : M unit) : M A :=
  fun io =>
    match c io with
    | (io', o) => (fst (f io'), o)
    end.

(** [try { c } catch (error) { h }] *)
Definition catch (A : Type) (c : M A) (h : M A) : M A :=
  fun io =>
    match c io with
    | (io', Returned a) => (io', Returned a)
    | (io', Thrown _) => h io'
    end.

Declare Scope io_scope.
Delimit Scope io_scope with io.
Notation "x <- c ;; k" := (bind c (fun x => k))
  (at level 61, c at next level, right associativity) : io_scope.
Notation "c ;; k" := (bind c (fun _ => k))
  (at level 61, right associativity) : io_scope.
Local Open Scope io_scope.

(** A request to the checks API: recorded, then answered by the world. *)
Definition request (w : World) (e : event) : M unit :=
  fun io =>
    let io' := {| trace := trace io ++ [e]; requests := S (requests io) |} in
    (io', if checks_api w (requests io) then Returned tt else Thrown OtherError).

(* --------------------------------------------------------------------- *)
(** *** [install] *)

Definition install (w : World) : M jsstring :=
  if negb (jsstring_eqb (platform w) (lit "win32"))
     && negb (jsstring_eqb (platform w) (lit "linux"))
  then emit SetFailed ;; throw OtherError
  else lift (tool_cache w).

(* --------------------------------------------------------------------- *)
(** *** [SVDConv.run] *)

(** [run(path)]; [None] is [null]. *)
Definition run (w : World) (executable svdPath : jsstring) : M (option Result) :=
  out <- finally
           (emit StartGroup ;;
            emit (Exec executable svdPath) ;;
            lift (tool w executable svdPath))
           (emit EndGroup) ;;
  let '(stdout, stderr) := out in
  (* If there's any output on stderr, return false *)
  if negb (length stderr =? 0) then ret None
  else lift (SVDConv_parseMessages stdout).

(* --------------------------------------------------------------------- *)
(** *** [uploadResult] *)

(** [interface CheckOptions]; the owner and the repository are fixed by the
    context and left out. *)
Record CheckOptions := {
  token : jsstring;
  name : jsstring;
  head_sha : jsstring
}.

(** The [while] loop of [uploadResult]; it returns the map as it leaves it. *)
Equations? upload_loop (w : World) (svdPath : jsstring) (checkRunId : nat)
    (msgs : MessageMap) (io : IO) : IO * outcome MessageMap
    by wf (weight msgs) lt :=
  upload_loop w svdPath checkRunId msgs io with inspect (0 <? Map_size msgs) => {
    | exist _ false _ := (io, Returned msgs);
    | exist _ true Hsize with inspect (getAnnotations svdPath msgs) => {
        | exist _ (None, msgs') _ := (io, Returned msgs');
        | exist _ (Some bucket, msgs') Hbucket
            with request w (ChecksUpdate checkRunId (lit "in_progress") None (Some bucket)) io => {
            | (io', Thrown e) := (io', Thrown e);
            | (io', Returned _) := upload_loop w svdPath checkRunId msgs' io' } } }.
Proof.
  pose proof (getAnnotations_weight svdPath msgs Hsize) as Hlt.
  rewrite Hbucket in Hlt. exact Hlt.
Qed.

Definition uploadResult (w : World) (result : Result) (svdPath : jsstring)
    (options : CheckOptions) : M unit :=
  request w (ChecksCreate (head_sha options) (lit "in_progress")) ;;
  let checkRunId := check_run_id w in
  catch
    (_ <- upload_loop w svdPath checkRunId (messages result) ;;
     request w (ChecksUpdate checkRunId (lit "completed") (Some (lit "neutral")) None))
    (* Cancel the run-check *)
    (request w (ChecksUpdate checkRunId (lit "completed") (Some (lit "cancelled")) None)).

(* --------------------------------------------------------------------- *)
(** *** [main] *)

Definition main (w : World) : M unit :=
  svdConvPath <- install w ;;
  emit (AddPath svdConvPath) ;;
  svdPath <- lift (input_path w) ;;
  githubToken <- lift (input_token w) ;;
  result <- run w svdConvPath svdPath ;;
  match result with
  | Some result =>
      emit (Info (InfoResults (errors (stats result)) (warnings (stats result))
                    (notes (stats result)))) ;;
      let sha :=
        match pull_request_head_sha w with
        | Some s => if length s =? 0 then context_sha w else s
        | None => context_sha w
        end in
      let options := {| token := githubToken; name := lit "svdconv"; head_sha := sha |} in
      uploadResult w result svdPath options
  | None => ret tt
  end ;;
  emit (Info (InfoPath svdConvPath)) ;;
  emit (Info (InfoTest match result with Some _ => false | None => true end)).

(** [main()] from a fresh process: the trace and how the promise settles. *)
Definition run_main (w : World) : list event * outcome unit :=
  let '(io, o) := main w {| trace := []; requests := 0 |} in (trace io, o).

Local Close Scope io_scope.

(* ===================================================================== *)
(** ** The vocabulary of the properties *)
(* ===================================================================== *)

(** *** Lines and patterns *)

(** The piece holds no line feed. *)
Definition no_newline (l : jsstring) : bool := forallb (fun c => negb (c =? 10)%N) l.

(** The capture numbers of a pattern. *)
Fixpoint groups (r : regex) : list nat :=
  match r with
  | Lit _ | Plus _ => []
  | Seq r1 r2 | Alt r1 r2 => groups r1 ++ groups r2
  | Opt r1 => groups r1
  | Grp i r1 => i :: groups r1
  end.

(** What stops a greedy run: the end of the text or a character outside the
    class. *)
Definition stops (p : N -> bool) (s : jsstring) : bool :=
  match s with
  | [] => true
  | c :: _ => negb (p c)
  end.

(** The severity keywords of the tool. *)
Definition keywords : list jsstring := [lit "INFO"; lit "ERROR"; lit "WARNING"].

(** The line starts with the marker. *)
Definition is_marker_line (ln : jsstring) : bool := startsWith ln (lit "***").

(** The header pattern matches the line. *)
Definition is_header_line (ln : jsstring) : bool :=
  match String_match ln MESSAGE_PATTERN with Some _ => true | None => false end.

(** The severity keyword a line carries as a header, if the header pattern
    matches it. *)
Definition severity_of (ln : jsstring) : option jsstring :=
  match String_match ln MESSAGE_PATTERN with
  | Some m => m 1
  | None => None
  end.

(** *** The parser *)

(** The parser after a header line: the fields read off the captures. *)
Definition after_header (this : SVDConvParser) (kw c : jsstring) (n : number)
    : SVDConvParser :=
  {| state := DESCRIPTION_LINE;
     parser_stats := count_level (toLowerCase kw) (parser_stats this);
     _level := toLowerCase kw;
     _code := c;
     _line := n |}.

(** The message emitted on the line after a header. *)
Definition pending_message (this : SVDConvParser) (ln : jsstring) : Message :=
  {| level := _level this; code := _code this; line := _line this;
     message := trim ln |}.

(** The number of lines that are headers of severity [kw]. *)
Definition count_severity (kw : jsstring) (lines : list jsstring) : nat :=
  length (filter (fun ln => match severity_of ln with
                            | Some k => jsstring_eqb k kw
                            | None => false
                            end) lines).

(** No marker line directly follows a marker line. *)
Fixpoint no_adjacent_markers (lines : list jsstring) : bool :=
  match lines with
  | a :: rest =>
      match rest with
      | b :: _ => negb (is_marker_line a && is_marker_line b)
      | [] => true
      end && no_adjacent_markers rest
  | [] => true
  end.

(** Every marker line is a header line. *)
Definition markers_are_headers (lines : list jsstring) : bool :=
  forallb (fun ln => implb (is_marker_line ln) (is_header_line ln)) lines.

(** The counters after [lines], each header line counted once. *)
Definition count_headers (st : Stats) (lines : list jsstring) : Stats :=
  {| notes := notes st + count_severity (lit "INFO") lines;
     errors := errors st + count_severity (lit "ERROR") lines;
     warnings := warnings st + count_severity (lit "WARNING") lines |}.

(** The first of [lines], if there is one, is no marker line. *)
Definition head_is_no_marker (lines : list jsstring) : bool :=
  match lines with
  | ln :: _ => negb (is_marker_line ln)
  | [] => true
  end.

(** *** Grouped messages and batches *)

(** The keys of a map are pairwise distinct. *)
Fixpoint Map_ok (m : MessageMap) : bool :=
  match m with
  | [] => true
  | (k, _) :: m' => negb (existsb (number_eqb k) (List.map fst m')) && Map_ok m'
  end.

(** Every key holds at least one message. *)
Definition nonempty_groups (m : MessageMap) : bool :=
  forallb (fun e => negb (length (snd e) =? 0)) m.

(** The number of messages a map holds. *)
Definition total_messages (m : MessageMap) : nat :=
  list_sum (List.map (fun e => length (snd e)) m).

(** Message [msg] is stored under key [k]. *)
Definition Map_In (k : number) (msg : Message) (m : MessageMap) : Prop :=
  exists v, In (k, v) m /\ In msg v.

(** The annotation [getAnnotations] builds for a message popped from under
    key [k]. *)
Definition annotation_for (svdPath : jsstring) (k : number) (msg : Message)
    : Annotation :=
  {| path := svdPath;
     start_line := if isNaN k then Fin 0 else k;
     end_line := if isNaN k then Fin 0 else k;
     annotation_level :=
       if jsstring_eqb (level msg) (lit "info") then lit "notice"
       else if jsstring_eqb (level msg) (lit "warning") then lit "warning"
       else lit "error";
     ann_message := code msg ++ lit ": " ++ message msg |}.

(** The fixed severity map: [info] to [notice], [warning] to [warning],
    any other level to [error]. *)
Definition severity_mapped (lvl annotation_level : jsstring) : Prop :=
  (lvl = lit "info" /\ annotation_level = lit "notice") \/
  (lvl = lit "warning" /\ annotation_level = lit "warning") \/
  (lvl <> lit "info" /\ lvl <> lit "warning" /\ annotation_level = lit "error").

(** The annotations of a call, none when it returns [null]. *)
Definition batch (svdPath : jsstring) (m : MessageMap) : list Annotation :=
  match fst (getAnnotations svdPath m) with
  | Some anns => anns
  | None => []
  end.

(** The map after [n] calls of [getAnnotations]. *)
Fixpoint drain (svdPath : jsstring) (n : nat) (m : MessageMap) : MessageMap :=
  match n with
  | 0 => m
  | S n' => drain svdPath n' (snd (getAnnotations svdPath m))
  end.

(** [ceil(n / 50)] *)
Definition batches_needed (n : nat) : nat := (n + 49) / 50.

(** *** The run *)

(** The event is a request to the checks API. *)
Definition is_request (e : event) : bool :=
  match e with
  | ChecksCreate _ _ | ChecksUpdate _ _ _ _ => true
  | _ => false
  end.

(** The requests sent to the checks API. *)
Definition api_requests (t : list event) : list event := filter is_request t.

(** The step reports failure: [core.setFailed] was called or the promise of
    [main] is rejected. *)
Definition reports_failure (r : list event * outcome unit) : bool :=
  existsb (fun e => match e with SetFailed => true | _ => false end) (fst r)
  || match snd r with Thrown _ => true | Returned _ => false end.

(** What [run] answers, from what the tool printed. *)
Definition run_outcome (w : World) (executable svdPath : jsstring)
    : outcome (option Result) :=
  match tool w executable svdPath with
  | Thrown e => Thrown e
  | Returned (stdout, stderr) =>
      if negb (length stderr =? 0) then Returned None
      else SVDConv_parseMessages stdout
  end.

(** *** Concrete inputs *)

(** A message on line [n]. *)
Definition example_message (n : nat) : Message :=
  {| level := lit "warning"; code := lit "M305";
     line := Fin (Z.of_nat n); message := lit "Field size exceeds register width." |}.

(** 120 messages, each on a line of its own. *)
Definition example_map_120 : MessageMap :=
  List.map (fun n => (Fin (Z.of_nat n), [example_message n])) (seq 1 120).

(** A header with a file name after the code, and a description line. *)
Definition example_header : jsstring := lit "*** WARNING M305: file.svd (Line 12)".

Definition example_description : jsstring := lit "  Field size exceeds register width.".

(** The header of the first scenario of the specification: the text after
    the code has a space in it. *)
Definition example_header_free_text : jsstring :=
  lit "*** WARNING M305: Field 'foo' (Line 12)".

(** Headers without the line group and of another severity; a marker line
    that is no header. *)
Definition example_header_no_line : jsstring := lit "*** INFO M101: file.svd".

Definition example_header_error : jsstring := lit "*** ERROR M202: file.svd (Line 7)".

Definition example_malformed : jsstring := lit "***oops".

(** The captures of the header pattern on [ln]. *)
Definition captures_of (ln : jsstring) : captures :=
  match String_match ln MESSAGE_PATTERN with
  | Some m => m
  | None => no_captures
  end.

(** A world on a supported platform, with the tool in the cache, both
    inputs given, every request answered, and the tool printing [stdout]
    and [stderr]. *)
Definition example_world (stdout stderr : jsstring) : World :=
  {| platform := lit "linux";
     tool_cache := Returned (lit "/opt/tool/SVDConv");
     input_path := Returned (lit "file.svd");
     input_token := Returned (lit "token");
     tool := fun _ _ => Returned (stdout, stderr);
     context_sha := lit "0123abc";
     pull_request_head_sha := None;
     checks_api := fun _ => true;
     check_run_id := 7 |}.

(** *** Order of the batches, fields of the messages, requests *)

(** The annotations a map still holds, in the order [getAnnotations] takes
    them: key after key as inserted, and under a key from the last message
    to the first. *)
Definition pending_annotations (svdPath : jsstring) (m : MessageMap)
    : list Annotation :=
  flat_map (fun e => List.map (annotation_for svdPath (fst e)) (rev (snd e))) m.

(** The batches of the first [n] calls of [getAnnotations]. *)
Definition batches (svdPath : jsstring) (n : nat) (m : MessageMap)
    : list (list Annotation) :=
  List.map (fun i => batch svdPath (drain svdPath i m)) (seq 0 n).

(** Every message is filed under its own line. *)
Definition filed_by_line (m : MessageMap) : Prop :=
  forall k msg, Map_In k msg m -> line msg = k.

(** The sum of the three counters. *)
Definition stats_total (st : Stats) : nat := notes st + errors st + warnings st.

(** A header is waiting for its description. *)
Definition pending_header (this : SVDConvParser) : nat :=
  match state this with
  | DESCRIPTION_LINE => 1
  | _ => 0
  end.

(** The fields a message can have: a level out of three, a code [M<digits>],
    and a line that is [NaN] or [Number] of a run of digits. *)
Definition Message_ok (msg : Message) : Prop :=
  In (level msg) [lit "info"; lit "error"; lit "warning"] /\
  (exists ds, ds <> [] /\ forallb isDigit ds = true /\ code msg = lit "M" ++ ds) /\
  (line msg = NaN \/
   exists ns, ns <> [] /\ forallb isDigit ns = true /\ line msg = Number (Some ns)).

(** The incremental update that carries a batch. *)
Definition update_event (checkRunId : nat) (bucket : list Annotation) : event :=
  ChecksUpdate checkRunId (lit "in_progress") None (Some bucket).

(** The update that ends a check run. *)
Definition completed_event (checkRunId : nat) (conclusion : jsstring) : event :=
  ChecksUpdate checkRunId (lit "completed") (Some conclusion) None.

(** The requests [n], [n + 1], ... below [n'] all succeed. *)
Definition requests_succeed (w : World) (n n' : nat) : Prop :=
  forall i, n <= i -> i < n' -> checks_api w i = true.

Definition is_exec (e : event) : bool :=
  match e with
  | Exec _ _ => true
  | _ => false
  end.

(** [install] and both inputs succeed. *)
Definition can_start (w : World) : bool :=
  (jsstring_eqb (platform w) (lit "win32") || jsstring_eqb (platform w) (lit "linux"))
  && match tool_cache w with Returned _ => true | Thrown _ => false end
  && match input_path w with Returned _ => true | Thrown _ => false end
  && match input_token w with Returned _ => true | Thrown _ => false end.

(** What [uploadResult] may send: the creation of the check run in
    progress, an update in progress of this check run with 1 to 50
    annotations, or the completion of this check run as neutral or
    cancelled; and nothing that is not a request. *)
Definition request_ok (checkRunId : nat) (e : event) : Prop :=
  match e with
  | ChecksCreate _ status => status = lit "in_progress"
  | ChecksUpdate id status conclusion (Some bucket) =>
      id = checkRunId /\ status = lit "in_progress" /\ conclusion = None /\
      bucket <> [] /\ length bucket <= 50
  | ChecksUpdate id status conclusion None =>
      id = checkRunId /\ status = lit "completed" /\
      (conclusion = Some (lit "neutral") \/ conclusion = Some (lit "cancelled"))
  | _ => False
  end.

(** The commit [main] attaches the check run to. *)
Definition chosen_sha (w : World) : jsstring :=
  match pull_request_head_sha w with
  | Some s => if length s =? 0 then context_sha w else s
  | None => context_sha w
  end.

(** A buffer without any marker line. *)
Definition quiet (buffer : jsstring) : bool :=
  forallb (fun ln => negb (is_marker_line ln)) (split_nl buffer).

(** One block, as a buffer, and what it aggregates to. *)
Definition example_buffer : jsstring := join_nl [example_header; example_description].

Definition example_result : Result :=
  {| messages := [(Fin 12, [example_message 12])];
     stats := {| notes := 0; errors := 0; warnings := 1 |} |}.

(** The block followed by a header without description, and what it
    aggregates to. *)
Definition example_buffer_open : jsstring :=
  join_nl [example_header; example_description; example_header_error].

Definition example_result_open : Result :=
  {| messages := [(Fin 12, [example_message 12])];
     stats := {| notes := 0; errors := 1; warnings := 1 |} |}.

(** The 120 messages as a result. *)
Definition example_result_120 : Result :=
  {| messages := example_map_120;
     stats := {| notes := 0; errors := 0; warnings := 120 |} |}.

Definition example_options : CheckOptions :=
  {| token := lit "token"; name := lit "svdconv"; head_sha := lit "0123abc" |}.

(** The example world with a checks API that answers as [api] says, and
    the example world on another platform. *)
Definition example_world_api (api : nat -> bool) : World :=
  {| platform := lit "linux";
     tool_cache := Returned (lit "/opt/tool/SVDConv");
     input_path := Returned (lit "file.svd");
     input_token := Returned (lit "token");
     tool := fun _ _ => Returned (example_buffer, []);
     context_sha := lit "0123abc";
     pull_request_head_sha := None;
     checks_api := api;
     check_run_id := 7 |}.

Definition example_world_darwin : World :=
  {| platform := lit "darwin";
     tool_cache := Returned (lit "/opt/tool/SVDConv");
     input_path := Returned (lit "file.svd");
     input_token := Returned (lit "token");
     tool := fun _ _ => Returned (example_buffer, []);
     context_sha := lit "0123abc";
     pull_request_head_sha := None;
     checks_api := fun _ => true;
     check_run_id := 7 |}.

Definition fresh_io : IO := {| trace := []; requests := 0 |}.

(** The messages the parser emits over [lines], in order. *)
Fixpoint emitted (this : SVDConvParser) (lines : list jsstring) : list Message :=
  match lines with
  | [] => []
  | ln :: rest =>
      match parseMessage this ln with
      | Returned (this', Some msg) => msg :: emitted this' rest
      | Returned (this', None) => emitted this' rest
      | Thrown _ => []
      end
  end.

(** The messages a map holds under key [k]; none when the key is absent. *)
Definition group_of (m : MessageMap) (k : number) : list Message :=
  match Map_get m k with
  | Some v => v
  | None => []
  end.


(** The messages a map still holds, each with the key it is stored under,
    in the order [getAnnotations] takes them: key after key as inserted,
    and under a key from the last message to the first. *)
Definition pending_messages (m : MessageMap) : list (number * Message) :=
  flat_map (fun e => List.map (pair (fst e)) (rev (snd e))) m.

(** The line an annotation is put on, for a message stored under [k]:
    line 0 when the key is [NaN], the key itself otherwise. *)
Definition annotated_on (k : number) (a : Annotation) : Prop :=
  (k = NaN -> start_line a = Fin 0 /\ end_line a = Fin 0) /\
  (k <> NaN -> start_line a = k /\ end_line a = k).

(** The level and the text of an annotation are those of message [msg]:
    the level by the fixed severity map, the text [<code>: <message>]. *)
Definition annotates (msg : Message) (a : Annotation) : Prop :=
  severity_mapped (level msg) (annotation_level a) /\
  ann_message a = code msg ++ lit ": " ++ message msg.

(** The input ends on a header whose description never came.  Reading the
    lines in order, a marker line met while no header is open opens one,
    and the line after it closes it, whatever it holds; [pending] tells
    whether a header is open before [lines]. *)
Fixpoint ends_on_header (pending : bool) (lines : list jsstring) : bool :=
  match lines with
  | [] => pending
  | ln :: rest => ends_on_header (if pending then false else is_marker_line ln) rest
  end.

(** The number of messages of level [lvl] a map holds. *)
Definition messages_of_level (lvl : jsstring) (m : MessageMap) : nat :=
  list_sum
    (List.map (fun e => length (filter (fun msg => jsstring_eqb (level msg) lvl) (snd e)))
       m).

(** 1 when the input ends on a header of severity [kw] whose description
    never came, 0 otherwise. *)
Definition unanswered_header (kw : jsstring) (lines : list jsstring) : nat :=
  if ends_on_header false lines then
    match severity_of (last lines []) with
    | Some k => if jsstring_eqb k kw then 1 else 0
    | None => 0
    end
  else 0.

(** The counter a severity keyword is counted in. *)
Definition counter_of (kw : jsstring) (st : Stats) : nat :=
  if jsstring_eqb kw (lit "INFO") then notes st
  else if jsstring_eqb kw (lit "ERROR") then errors st
  else warnings st.

(** 1 when the parser waits for the description of a header of severity
    [kw], 0 otherwise. *)
Definition pending_level (kw : jsstring) (this : SVDConvParser) : nat :=
  match state this with
  | DESCRIPTION_LINE => if jsstring_eqb (_level this) (toLowerCase kw) then 1 else 0
  | _ => 0
  end.

(** *** Header lines and blocks *)

(** A header line in its parts: the marker, a keyword, the code [M] and
    digits, the token after the code, and what follows the token. *)
Definition header_line (kw ds tok sfx : jsstring) : jsstring :=
  lit "*** " ++ kw ++ lit " " ++ (lit "M" ++ ds) ++ lit ": " ++ tok ++ sfx.

(** The parts are a severity keyword, digits, and a whitespace-free token
    that [sfx] does not continue. *)
Definition header_parts (kw ds tok sfx : jsstring) : Prop :=
  In kw keywords /\
  ds <> [] /\ forallb isDigit ds = true /\
  tok <> [] /\ forallb isNonSpace tok = true /\
  stops isNonSpace sfx = true.

(** The line group [ (Line N)] and what follows it. *)
Definition line_group (ns rest : jsstring) : jsstring :=
  lit " (Line " ++ ns ++ lit ")" ++ rest.

(** The text does not start with a line group. *)
Definition no_line_group (sfx : jsstring) : Prop :=
  forall ns rest, ns <> [] -> forallb isDigit ns = true -> sfx <> line_group ns rest.

(** The message of a block with keyword [kw], code [M<ds>], line [n] and
    second line [desc]. *)
Definition block_message (kw ds : jsstring) (n : number) (desc : jsstring) : Message :=
  {| level := toLowerCase kw; code := lit "M" ++ ds; line := n; message := trim desc |}.

(** The two lines of a block give exactly the message [msg]: the header
    line emits nothing, the second line emits [msg] and leaves the parser
    idle, and the two lines aggregated alone give a map with [msg] alone,
    under its line. *)
Definition block_parsed (this : SVDConvParser) (header desc : jsstring) (msg : Message)
    : Prop :=
  exists p p',
    parseMessage this header = Returned (p, None) /\
    parseMessage p desc = Returned (p', Some msg) /\
    state p' = NOISE /\
    parse_lines this [] [header; desc] = Returned (p', [(line msg, [msg])]).

(** A line feed. *)
Definition LF : jsstring := [10%N].

(** A message without a line and two messages on line 12, as a map. *)
Definition example_message_no_line : Message :=
  {| level := lit "info"; code := lit "M101"; line := NaN;
     message := lit "Device description has no vendor." |}.

Definition example_map_two_keys : MessageMap :=
  [(NaN, [example_message_no_line]);
   (Fin 12, [example_message 12; example_message 12])].

(* ===================================================================== *)
(** ** Properties of the string and pattern primitives *)
(* ===================================================================== *)

Section Strings.

Lemma jsstring_eqb_eq a b : jsstring_eqb a b = true <-> a = b.
Proof. unfold jsstring_eqb. destruct (list_eq_dec N.eq_dec a b); split; congruence. Qed.

Lemma jsstring_eqb_refl a : jsstring_eqb a a = true.
Proof. apply jsstring_eqb_eq. reflexivity. Qed.

Lemma stripPrefix_app t s : stripPrefix t (t ++ s) = Some s.
Proof.
  induction t as [|a t IH]; simpl; [reflexivity|].
  rewrite N.eqb_refl. exact IH.
Qed.

Lemma stripPrefix_inv t s s' : stripPrefix t s = Some s' -> s = t ++ s'.
Proof.
  revert s. induction t as [|a t IH]; intros s; simpl.
  - intros [= ->]. reflexivity.
  - destruct s as [|b s]; [discriminate|].
    destruct (N.eqb_spec a b); [|discriminate].
    intros H. apply IH in H. subst. reflexivity.
Qed.

Lemma consumed_app t s : consumed (t ++ s) s = t.
Proof.
  unfold consumed. rewrite length_app.
  replace (length t + length s - length s) with (length t) by lia.
  rewrite firstn_app, Nat.sub_diag, firstn_all. simpl. apply app_nil_r.
Qed.

Lemma split_nl_line l : no_newline l = true -> split_nl l = [l].
Proof.
  induction l as [|c l IH]; simpl; [reflexivity|].
  intros H. apply andb_prop in H as [Hc Hl].
  destruct (c =? 10)%N; [discriminate|]. rewrite (IH Hl). reflexivity.
Qed.

Lemma split_nl_cons l s :
  no_newline l = true -> split_nl (l ++ 10%N :: s) = l :: split_nl s.
Proof.
  induction l as [|c l IH]; simpl; [reflexivity|].
  intros H. apply andb_prop in H as [Hc Hl].
  destruct (c =? 10)%N; [discriminate|]. rewrite (IH Hl). reflexivity.
Qed.

(** Splitting at line feeds undoes joining with line feeds. *)
Lemma split_nl_join ls :
  ls <> [] -> forallb no_newline ls = true -> split_nl (join_nl ls) = ls.
Proof.
  induction ls as [|l ls IH]; [congruence|]. intros _ H.
  simpl in H. apply andb_prop in H as [Hl Hls].
  destruct ls as [|l' ls].
  - simpl. apply split_nl_line. exact Hl.
  - change (join_nl (l :: l' :: ls)) with (l ++ 10%N :: join_nl (l' :: ls)).
    rewrite split_nl_cons by exact Hl. rewrite IH; [reflexivity|discriminate|exact Hls].
Qed.

Lemma split_nl_nonempty s : split_nl s <> [].
Proof.
  destruct s as [|c s]; simpl; [discriminate|].
  destruct (c =? 10)%N; [discriminate|]. destruct (split_nl s); discriminate.
Qed.

(** No special case for a line feed at the end: it opens a last, empty
    piece. *)
Lemma split_nl_trailing s : split_nl (s ++ [10%N]) = split_nl s ++ [[]].
Proof.
  induction s as [|c s IH]; simpl; [reflexivity|].
  destruct (c =? 10)%N.
  - rewrite IH. reflexivity.
  - rewrite IH. pose proof (split_nl_nonempty s).
    destruct (split_nl s); [congruence|reflexivity].
Qed.

End Strings.

Section Patterns.

Lemma star_inv (A : Type) p s (k : jsstring -> option A) r :
  star p s k = Some r -> exists s', k s' = Some r.
Proof.
  induction s as [|c s IH]; simpl.
  - intros H. exists []. exact H.
  - destruct (p c).
    + destruct (star p s k) as [r'|] eqn:E.
      * intros [= ->]. apply IH. reflexivity.
      * intros H. exists (c :: s). exact H.
    + intros H. exists (c :: s). exact H.
Qed.

(** A successful match went through its continuation, and left the
    captures of other groups alone. *)
Lemma rmatch_inv r : forall s caps k m,
  rmatch r s caps k = Some m ->
  exists s' caps',
    k s' caps' = Some m /\ forall i, ~ In i (groups r) -> caps' i = caps i.
Proof.
  induction r as [t|p|r1 IH1 r2 IH2|r1 IH1 r2 IH2|r1 IH1|i r1 IH1];
    intros s caps k m; simpl.
  - destruct (stripPrefix t s) as [s'|]; [|discriminate].
    intros H. exists s', caps. split; [exact H|reflexivity].
  - destruct s as [|c s]; [discriminate|]. destruct (p c); [|discriminate].
    intros H. apply star_inv in H as [s' H]. exists s', caps.
    split; [exact H|reflexivity].
  - intros H. apply IH1 in H as (s1 & c1 & H & Hc1).
    apply IH2 in H as (s2 & c2 & H & Hc2).
    exists s2, c2. split; [exact H|]. intros i Hi.
    rewrite Hc2, Hc1; [reflexivity| |]; intros Hin; apply Hi, in_or_app; auto.
  - destruct (rmatch r1 s caps k) as [res|] eqn:E.
    + intros [= ->]. apply IH1 in E as (s1 & c1 & H & Hc1).
      exists s1, c1. split; [exact H|]. intros i Hi. apply Hc1.
      intros Hin; apply Hi, in_or_app; auto.
    + intros H. apply IH2 in H as (s2 & c2 & H & Hc2).
      exists s2, c2. split; [exact H|]. intros i Hi. apply Hc2.
      intros Hin; apply Hi, in_or_app; auto.
  - destruct (rmatch r1 s caps k) as [res|] eqn:E.
    + intros [= ->]. apply IH1 in E as (s1 & c1 & H & Hc1).
      exists s1, c1. split; [exact H|exact Hc1].
    + intros H. exists s, caps. split; [exact H|reflexivity].
  - intros H. apply IH1 in H as (s1 & c1 & H & Hc1).
    exists s1, (set_capture i (consumed s s1) c1). split; [exact H|].
    intros j Hj. unfold set_capture. destruct (Nat.eqb_spec j i) as [->|Hne].
    + exfalso. apply Hj. left. reflexivity.
    + apply Hc1. intros Hin. apply Hj. right. exact Hin.
Qed.

Lemma star_run (A : Type) p run rest (k : jsstring -> option A) r :
  forallb p run = true -> stops p rest = true ->
  k rest = Some r -> star p (run ++ rest) k = Some r.
Proof.
  intros Hrun Hstop Hk. induction run as [|c run IH]; simpl.
  - destruct rest as [|c rest]; [exact Hk|]. simpl in *.
    destruct (p c); [discriminate|exact Hk].
  - simpl in Hrun. apply andb_prop in Hrun as [Hc Hrun].
    rewrite Hc, (IH Hrun). reflexivity.
Qed.

Lemma rmatch_Plus_run p run rest caps k m :
  run <> [] -> forallb p run = true -> stops p rest = true ->
  k rest caps = Some m -> rmatch (Plus p) (run ++ rest) caps k = Some m.
Proof.
  intros Hne Hrun Hstop Hk. destruct run as [|c run]; [congruence|].
  simpl in *. apply andb_prop in Hrun as [Hc Hrun]. rewrite Hc.
  apply star_run; assumption.
Qed.

Lemma rmatch_Lit_app t s caps k : rmatch (Lit t) (t ++ s) caps k = k s caps.
Proof. simpl. rewrite stripPrefix_app. reflexivity. Qed.

End Patterns.

(* ===================================================================== *)
(** ** The header pattern *)
(* ===================================================================== *)

Section HeaderPattern.

Lemma rmatch_Lit_inv t s caps k m :
  rmatch (Lit t) s caps k = Some m -> exists s', s = t ++ s' /\ k s' caps = Some m.
Proof.
  simpl. destruct (stripPrefix t s) as [s'|] eqn:E; [|discriminate].
  intros H. exists s'. split; [apply stripPrefix_inv; exact E|exact H].
Qed.

Lemma rmatch_Alt_inv r1 r2 s caps k m :
  rmatch (Alt r1 r2) s caps k = Some m ->
  rmatch r1 s caps k = Some m \/ rmatch r2 s caps k = Some m.
Proof.
  simpl. destruct (rmatch r1 s caps k) as [res|]; [intros [= ->]; left|right]; auto.
Qed.

Lemma rmatch_Seq_Lit_inv t r s caps k m :
  rmatch (Seq (Lit t) r) s caps k = Some m ->
  exists s', s = t ++ s' /\ rmatch r s' caps k = Some m.
Proof. intros H. apply rmatch_Lit_inv in H. exact H. Qed.

Lemma rmatch_Seq_Grp_inv i g r s caps k m :
  rmatch (Seq (Grp i g) r) s caps k = Some m ->
  exists s' caps',
    rmatch r s' (set_capture i (consumed s s') caps') k = Some m /\
    forall j, ~ In j (groups g) -> caps' j = caps j.
Proof. intros H. cbn [rmatch] in H. apply rmatch_inv in H. exact H. Qed.

Lemma rmatch_Seq_keyword_inv i a b c r s caps k m :
  rmatch (Seq (Grp i (Alt (Lit a) (Alt (Lit b) (Lit c)))) r) s caps k = Some m ->
  exists kw s',
    In kw [a; b; c] /\ s = kw ++ s' /\
    rmatch r s' (set_capture i kw caps) k = Some m.
Proof.
  intros H. change (rmatch (Alt (Lit a) (Alt (Lit b) (Lit c))) s caps
    (fun s' caps' => rmatch r s' (set_capture i (consumed s s') caps') k) = Some m) in H.
  apply rmatch_Alt_inv in H as [H|H]; [|apply rmatch_Alt_inv in H as [H|H]];
    apply rmatch_Lit_inv in H as (s' & -> & H); rewrite consumed_app in H.
  - exists a, s'. simpl. auto.
  - exists b, s'. simpl. auto.
  - exists c, s'. simpl. auto.
Qed.

(** A line the header pattern matches starts with the marker, and captures
    1 and 2 are set: capture 1 is one of the keywords. *)
Lemma MESSAGE_PATTERN_inv ln m :
  String_match ln MESSAGE_PATTERN = Some m ->
  is_marker_line ln = true /\
  exists kw c, In kw keywords /\ m 1 = Some kw /\ m 2 = Some c.
Proof.
  unfold String_match, MESSAGE_PATTERN, cat. cbn [fold_right]. intros H.
  apply rmatch_Seq_Lit_inv in H as (s1 & -> & H). split; [reflexivity|].
  apply rmatch_Seq_keyword_inv in H as (kw & s2 & Hkw & -> & H).
  apply rmatch_Seq_Lit_inv in H as (s3 & -> & H).
  apply rmatch_Seq_Grp_inv in H as (s4 & c4 & H & Hc4).
  apply rmatch_inv in H as (s5 & c5 & [= <-] & Hc5).
  exists kw, (consumed s3 s4). split; [exact Hkw|]. split.
  - rewrite Hc5 by (cbn; intuition discriminate).
    unfold set_capture at 1. cbn [Nat.eqb].
    rewrite Hc4 by (cbn; intuition discriminate). reflexivity.
  - rewrite Hc5 by (cbn; intuition discriminate). reflexivity.
Qed.

Lemma rmatch_Alt_l r1 r2 s caps k m :
  rmatch r1 s caps k = Some m -> rmatch (Alt r1 r2) s caps k = Some m.
Proof. intros H. simpl. rewrite H. reflexivity. Qed.

Lemma rmatch_Alt_r r1 r2 s caps k :
  rmatch r1 s caps k = None -> rmatch (Alt r1 r2) s caps k = rmatch r2 s caps k.
Proof. intros H. simpl. rewrite H. reflexivity. Qed.

Lemma rmatch_Seq r1 r2 s caps k :
  rmatch (Seq r1 r2) s caps k = rmatch r1 s caps (fun s' caps' => rmatch r2 s' caps' k).
Proof. reflexivity. Qed.

Lemma rmatch_Grp i r s caps k :
  rmatch (Grp i r) s caps k =
  rmatch r s caps (fun s' caps' => k s' (set_capture i (consumed s s') caps')).
Proof. reflexivity. Qed.

Lemma rmatch_Lit_nil s caps k : rmatch (Lit []) s caps k = k s caps.
Proof. reflexivity. Qed.

Lemma rmatch_Opt_l r s caps k m :
  rmatch r s caps k = Some m -> rmatch (Opt r) s caps k = Some m.
Proof. intros H. simpl. rewrite H. reflexivity. Qed.

(** The keyword group on a line that continues with a keyword. *)
Lemma rmatch_keyword kw s caps k m :
  In kw keywords ->
  k s caps = Some m ->
  rmatch (Alt (Lit (lit "INFO")) (Alt (Lit (lit "ERROR")) (Lit (lit "WARNING"))))
         (kw ++ s) caps k = Some m.
Proof.
  intros Hkw Hk. destruct Hkw as [<-|[<-|[<-|[]]]].
  - apply rmatch_Alt_l. rewrite rmatch_Lit_app. exact Hk.
  - rewrite rmatch_Alt_r by reflexivity.
    apply rmatch_Alt_l. rewrite rmatch_Lit_app. exact Hk.
  - rewrite rmatch_Alt_r by reflexivity. rewrite rmatch_Alt_r by reflexivity.
    rewrite rmatch_Lit_app. exact Hk.
Qed.

(** A header whose [(Line N)] group directly follows the one
    whitespace-free token after the code: the captures are the keyword, the
    code and the digits of [N]. *)
Lemma MESSAGE_PATTERN_line kw ds tok ns rest :
  In kw keywords ->
  ds <> [] -> forallb isDigit ds = true ->
  tok <> [] -> forallb isNonSpace tok = true ->
  ns <> [] -> forallb isDigit ns = true ->
  exists m,
    String_match
      (lit "*** " ++ kw ++ lit " " ++ (lit "M" ++ ds) ++ lit ": " ++ tok
         ++ lit " (Line " ++ ns ++ lit ")" ++ rest) MESSAGE_PATTERN = Some m /\
    m 1 = Some kw /\ m 2 = Some (lit "M" ++ ds) /\ m 4 = Some ns.
Proof.
  intros Hkw Hds Dds Htok Dtok Hns Dns.
  eexists. split.
  - unfold String_match, MESSAGE_PATTERN, cat. cbn [fold_right].
    rewrite rmatch_Seq, rmatch_Lit_app.
    rewrite rmatch_Seq, rmatch_Grp.
    apply rmatch_keyword; [exact Hkw|]. rewrite consumed_app.
    rewrite rmatch_Seq, rmatch_Lit_app.
    rewrite rmatch_Seq, rmatch_Grp, rmatch_Seq.
    rewrite <- (app_assoc (lit "M") ds), rmatch_Lit_app.
    rewrite rmatch_Seq.
    apply rmatch_Plus_run; [exact Hds|exact Dds|reflexivity|].
    rewrite rmatch_Lit_nil.
    rewrite (app_assoc (lit "M") ds), consumed_app.
    rewrite rmatch_Seq, rmatch_Lit_app.
    rewrite rmatch_Seq.
    apply rmatch_Plus_run; [exact Htok|exact Dtok|reflexivity|].
    rewrite rmatch_Seq. apply rmatch_Opt_l.
    rewrite rmatch_Grp, rmatch_Seq, rmatch_Lit_app.
    rewrite rmatch_Seq, rmatch_Grp.
    apply rmatch_Plus_run; [exact Hns|exact Dns|reflexivity|].
    rewrite consumed_app.
    rewrite rmatch_Seq, rmatch_Lit_app.
    rewrite !rmatch_Lit_nil.
    reflexivity.
  - split; [reflexivity|]. split; reflexivity.
Qed.

End HeaderPattern.

(* ===================================================================== *)
(** ** The parser, one line at a time *)
(* ===================================================================== *)

Section Parser.

(** Idle parser, marker line, pattern matches: the header is recorded and
    counted, nothing is emitted. *)
Lemma parseMessage_header this ln m :
  state this = NOISE ->
  String_match ln MESSAGE_PATTERN = Some m ->
  exists kw c,
    In kw keywords /\ m 1 = Some kw /\ m 2 = Some c /\
    parseMessage this ln = Returned (after_header this kw c (Number (m 4)), None).
Proof.
  intros Hst Hm.
  destruct (MESSAGE_PATTERN_inv _ Hm) as (Hmark & kw & c & Hkw & H1 & H2).
  exists kw, c. repeat split; try assumption.
  unfold parseMessage, is_marker_line in *. rewrite Hst, Hmark.
  cbn [ParserState_eqb andb set_state state]. rewrite Hm, H1, H2. reflexivity.
Qed.

(** Idle parser, marker line, pattern does not match: [TypeError]. *)
Lemma parseMessage_malformed this ln :
  state this = NOISE ->
  is_marker_line ln = true ->
  String_match ln MESSAGE_PATTERN = None ->
  parseMessage this ln = Thrown TypeError.
Proof.
  intros Hst Hmark Hm. unfold parseMessage, is_marker_line in *.
  rewrite Hst, Hmark. cbn [ParserState_eqb andb set_state state].
  rewrite Hm. reflexivity.
Qed.

(** Idle parser, no marker: nothing happens. *)
Lemma parseMessage_noise this ln :
  state this = NOISE ->
  is_marker_line ln = false ->
  parseMessage this ln = Returned (this, None).
Proof.
  intros Hst Hmark. unfold parseMessage, is_marker_line in *.
  rewrite Hst, Hmark. cbn [ParserState_eqb andb]. rewrite Hst. reflexivity.
Qed.

(** After a header, whatever the line is, it is the description. *)
Lemma parseMessage_description this ln :
  state this = DESCRIPTION_LINE ->
  parseMessage this ln =
  Returned (set_state this NOISE, Some (pending_message this ln)).
Proof.
  intros Hst. unfold parseMessage. rewrite Hst.
  cbn [ParserState_eqb andb]. rewrite Hst. reflexivity.
Qed.

Lemma parse_lines_cons this msgs ln rest :
  parse_lines this msgs (ln :: rest) =
  match parseMessage this ln with
  | Thrown e => Thrown e
  | Returned (this', None) => parse_lines this' msgs rest
  | Returned (this', Some msg) => parse_lines this' (store_message msgs msg) rest
  end.
Proof. reflexivity. Qed.

Lemma count_level_keyword kw st :
  In kw keywords ->
  count_level (toLowerCase kw) st =
  {| notes := notes st + (if jsstring_eqb kw (lit "INFO") then 1 else 0);
     errors := errors st + (if jsstring_eqb kw (lit "ERROR") then 1 else 0);
     warnings := warnings st + (if jsstring_eqb kw (lit "WARNING") then 1 else 0) |}.
Proof.
  intros [<-|[<-|[<-|[]]]]; destruct st as [n e w]; unfold count_level;
    vm_compute jsstring_eqb; cbn [notes errors warnings];
    rewrite ?Nat.add_0_r; reflexivity.
Qed.

End Parser.

(* ===================================================================== *)
(** ** Grouped messages *)
(* ===================================================================== *)

Section GroupedMessages.

Lemma Map_delete_absent m k :
  existsb (number_eqb k) (List.map fst m) = false -> Map_delete m k = m.
Proof.
  induction m as [|[k' v] m IH]; simpl; [reflexivity|].
  intros H. apply orb_false_elim in H as [Hk Hm].
  replace (number_eqb k' k) with false.
  - rewrite (IH Hm). reflexivity.
  - symmetry. apply not_true_is_false. intros E. apply number_eqb_eq in E.
    subst k'. rewrite number_eqb_refl in Hk. discriminate.
Qed.

Lemma Map_delete_nonempty m k :
  nonempty_groups m = true -> nonempty_groups (Map_delete m k) = true.
Proof.
  unfold nonempty_groups. induction m as [|[k' v] m IH]; simpl; [reflexivity|].
  intros H. apply andb_prop in H as [Hv Hm].
  destruct (number_eqb k' k); simpl; [auto|]. rewrite Hv. auto.
Qed.

Lemma Map_delete_In m k k' msg :
  Map_In k' msg (Map_delete m k) -> Map_In k' msg m.
Proof.
  unfold Map_In. induction m as [|[k0 v0] m IH]; simpl; [auto|].
  destruct (number_eqb k0 k).
  - intros H. destruct (IH H) as (v & Hin & Hmsg). exists v. auto.
  - intros (v & [Hin|Hin] & Hmsg).
    + exists v. auto.
    + destruct IH as (v' & Hin' & Hmsg'); [exists v; auto|]. exists v'. auto.
Qed.

(** One turn of the loop on a map that starts with key [k]. *)
Lemma getAnnotations_step_cons svdPath anns k v rest :
  getAnnotations_step svdPath (anns, (k, v) :: rest) =
  if length anns <? 50 then
    Some match rev v with
         | [] => (anns, Map_delete rest k)
         | x :: r =>
             (anns ++ [annotation_for svdPath k x],
              if length r =? 0 then Map_delete rest k else (k, rev r) :: rest)
         end
  else None.
Proof.
  unfold getAnnotations_step. cbn [Map_size length Map_first_key Map_get].
  change (0 <? S (length rest)) with true. rewrite andb_true_r.
  destruct (length anns <? 50); [|reflexivity].
  rewrite number_eqb_refl. unfold Array_pop.
  destruct (rev v) as [|x r] eqn:E.
  - assert (v = []) as -> by (rewrite <- (rev_involutive v), E; reflexivity).
    cbn. rewrite !number_eqb_refl. cbn. rewrite number_eqb_refl. reflexivity.
  - cbn [Map_set]. rewrite number_eqb_refl, length_rev.
    destruct (length r =? 0); [|reflexivity].
    cbn [Map_delete]. rewrite number_eqb_refl. reflexivity.
Qed.

Lemma getAnnotations_step_nil svdPath anns :
  getAnnotations_step svdPath (anns, []) = None.
Proof.
  unfold getAnnotations_step. cbn. rewrite andb_false_r. reflexivity.
Qed.

(** A turn never takes the batch beyond 50. *)
Lemma getAnnotations_step_bound svdPath st st' :
  getAnnotations_step svdPath st = Some st' ->
  length (fst st) <= 50 -> length (fst st') <= 50.
Proof.
  destruct st as [anns [|[k v] rest]].
  - rewrite getAnnotations_step_nil. discriminate.
  - rewrite getAnnotations_step_cons.
    destruct (Nat.ltb_spec (length anns) 50); [|discriminate].
    intros [= <-] _. destruct (rev v); simpl; [lia|].
    rewrite length_app. simpl. lia.
Qed.

(** A turn keeps every group non-empty. *)
Lemma getAnnotations_step_nonempty svdPath st st' :
  getAnnotations_step svdPath st = Some st' ->
  nonempty_groups (snd st) = true -> nonempty_groups (snd st') = true.
Proof.
  destruct st as [anns [|[k v] rest]].
  - rewrite getAnnotations_step_nil. discriminate.
  - rewrite getAnnotations_step_cons.
    destruct (length anns <? 50); [|discriminate].
    intros [= <-] H. cbn in H. apply andb_prop in H as [Hv Hrest].
    destruct (rev v) as [|x r]; cbn [snd].
    + apply Map_delete_nonempty. exact Hrest.
    + destruct (length r =? 0) eqn:E.
      * apply Map_delete_nonempty. exact Hrest.
      * cbn. rewrite length_rev, E. exact Hrest.
Qed.

(** On a well-formed map with non-empty groups a turn moves exactly one
    message from the map to the batch. *)
Lemma getAnnotations_step_grouped svdPath st st' :
  getAnnotations_step svdPath st = Some st' ->
  Map_ok (snd st) = true -> nonempty_groups (snd st) = true ->
  Map_ok (snd st') = true /\
  length (fst st') = S (length (fst st)) /\
  S (total_messages (snd st')) = total_messages (snd st).
Proof.
  destruct st as [anns [|[k v] rest]].
  - rewrite getAnnotations_step_nil. discriminate.
  - rewrite getAnnotations_step_cons.
    destruct (length anns <? 50); [|discriminate].
    intros [= <-] Hok Hne. cbn in Hok, Hne.
    apply andb_prop in Hok as [Hk Hok]. apply andb_prop in Hne as [Hv Hne].
    apply negb_true_iff in Hk.
    rewrite <- (length_rev v) in Hv.
    unfold total_messages. cbn [List.map list_sum snd].
    rewrite <- (length_rev v).
    destruct (rev v) as [|x r]; [discriminate|].
    cbn [fst snd]. rewrite length_app. cbn [length].
    destruct (length r =? 0) eqn:E.
    + apply Nat.eqb_eq in E. rewrite (Map_delete_absent _ _ Hk).
      repeat split; [exact Hok|lia|simpl; lia].
    + cbn. rewrite Hk, Hok, length_rev. repeat split; simpl; lia.
Qed.

Lemma nonempty_groups_empty m :
  nonempty_groups m = true -> total_messages m = 0 -> m = [].
Proof.
  destruct m as [|[k v] m]; [reflexivity|]. unfold total_messages. cbn.
  intros H. apply andb_prop in H as [Hv _]. destruct v; [discriminate|].
  simpl. lia.
Qed.

(** The whole loop on a well-formed map with non-empty groups: the batch is
    filled up to 50 as far as the messages go. *)
Lemma getAnnotations_loop_grouped svdPath st :
  Map_ok (snd st) = true -> nonempty_groups (snd st) = true ->
  length (fst st) <= 50 ->
  let r := getAnnotations_loop svdPath st in
  Map_ok (snd r) = true /\ nonempty_groups (snd r) = true /\
  length (fst r) = Nat.min 50 (length (fst st) + total_messages (snd st)) /\
  length (fst r) + total_messages (snd r) =
    length (fst st) + total_messages (snd st).
Proof.
  cbv zeta.
  apply (getAnnotations_loop_rec svdPath
    (fun st r =>
       Map_ok (snd st) = true -> nonempty_groups (snd st) = true ->
       length (fst st) <= 50 ->
       Map_ok (snd r) = true /\ nonempty_groups (snd r) = true /\
       length (fst r) = Nat.min 50 (length (fst st) + total_messages (snd st)) /\
       length (fst r) + total_messages (snd r) =
         length (fst st) + total_messages (snd st))).
  - intros [anns m] Hstop Hok Hne Hlen. cbn [fst snd] in *.
    repeat split; try assumption.
    destruct m as [|[k v] m].
    + change (total_messages []) with 0. lia.
    + rewrite getAnnotations_step_cons in Hstop.
      destruct (Nat.ltb_spec (length anns) 50); [discriminate|]. lia.
  - intros s s' r Hstep IH Hok Hne Hlen.
    destruct (getAnnotations_step_grouped _ _ Hstep Hok Hne) as (Hok' & Hl & Ht).
    pose proof (getAnnotations_step_nonempty _ _ Hstep Hne) as Hne'.
    pose proof (getAnnotations_step_bound _ _ Hstep Hlen) as Hlen'.
    destruct (IH Hok' Hne' Hlen') as (H1 & H2 & H3 & H4).
    repeat split; try assumption; lia.
Qed.

End GroupedMessages.

(* ===================================================================== *)
(** ** The annotation batcher *)
(* ===================================================================== *)

Section Batcher.

Lemma getAnnotations_bound svdPath m :
  match fst (getAnnotations svdPath m) with
  | Some anns => length anns <= 50
  | None => True
  end.
Proof.
  unfold getAnnotations.
  assert (H : length (fst (getAnnotations_loop svdPath ([], m))) <= 50).
  { apply (getAnnotations_loop_rec svdPath
      (fun st r => length (fst st) <= 50 -> length (fst r) <= 50)).
    - auto.
    - intros s s' r Hstep IH Hlen. apply IH.
      exact (getAnnotations_step_bound _ _ Hstep Hlen).
    - simpl. lia. }
  destruct (getAnnotations_loop svdPath ([], m)) as [anns m']. cbn [fst] in *.
  destruct (length anns =? 0); [exact I|exact H].
Qed.

Lemma total_messages_empty m :
  nonempty_groups m = true -> (total_messages m = 0 <-> m = []).
Proof.
  intros Hne. split; [apply nonempty_groups_empty; exact Hne|].
  intros ->. reflexivity.
Qed.

(** One call on a well-formed map with non-empty groups. *)
Lemma getAnnotations_grouped svdPath m :
  Map_ok m = true -> nonempty_groups m = true ->
  Map_ok (snd (getAnnotations svdPath m)) = true /\
  nonempty_groups (snd (getAnnotations svdPath m)) = true /\
  total_messages (snd (getAnnotations svdPath m)) = total_messages m - 50 /\
  (fst (getAnnotations svdPath m) = None <-> m = []).
Proof.
  intros Hok Hne.
  destruct (getAnnotations_loop_grouped svdPath ([], m) Hok Hne) as (H1 & H2 & H3 & H4);
    [simpl; lia|].
  unfold getAnnotations.
  destruct (getAnnotations_loop svdPath ([], m)) as [anns m']. cbn [fst snd length] in *.
  repeat split; try assumption; try lia.
  - destruct (Nat.eqb_spec (length anns) 0); [|discriminate].
    intros _. apply (total_messages_empty _ Hne). lia.
  - intros ->. change (total_messages []) with 0 in *.
    destruct (Nat.eqb_spec (length anns) 0); [reflexivity|lia].
Qed.

(** [n] calls take [50 * n] messages out, as far as there are any. *)
Lemma drain_grouped svdPath n : forall m,
  Map_ok m = true -> nonempty_groups m = true ->
  Map_ok (drain svdPath n m) = true /\
  nonempty_groups (drain svdPath n m) = true /\
  total_messages (drain svdPath n m) = total_messages m - 50 * n.
Proof.
  induction n as [|n IH]; intros m Hok Hne; cbn [drain].
  - repeat split; try assumption. lia.
  - destruct (getAnnotations_grouped svdPath m Hok Hne) as (Hok' & Hne' & Ht & _).
    destruct (IH _ Hok' Hne') as (H1 & H2 & H3).
    repeat split; try assumption. lia.
Qed.

(** C1. A call of [getAnnotations] returns at most 50 annotations.  On a
    grouped-messages map (distinct keys, each holding at least one message)
    it returns [null] exactly when the map is already empty, and on a map
    holding [n > 0] messages repeated calls leave the map empty after
    [ceil(n / 50)] calls and not before. *)
Theorem getAnnotations_batches svdPath m :
  match fst (getAnnotations svdPath m) with
  | Some anns => length anns <= 50
  | None => True
  end /\
  (Map_ok m = true -> nonempty_groups m = true ->
   (fst (getAnnotations svdPath m) = None <-> m = []) /\
   (0 < total_messages m ->
    drain svdPath (batches_needed (total_messages m)) m = [] /\
    forall k, k < batches_needed (total_messages m) -> drain svdPath k m <> [])).
Proof.
  split; [apply getAnnotations_bound|]. intros Hok Hne.
  split; [apply getAnnotations_grouped; assumption|]. intros Hpos.
  unfold batches_needed. split.
  - destruct (drain_grouped svdPath ((total_messages m + 49) / 50) m Hok Hne)
      as (_ & Hne' & Ht).
    apply (total_messages_empty _ Hne').
    pose proof (Nat.div_mod_eq (total_messages m + 49) 50).
    pose proof (Nat.mod_upper_bound (total_messages m + 49) 50). lia.
  - intros k Hk Hempty.
    destruct (drain_grouped svdPath k m Hok Hne) as (_ & _ & Ht).
    rewrite Hempty in Ht. change (total_messages []) with 0 in Ht.
    pose proof (Nat.div_mod_eq (total_messages m + 49) 50).
    pose proof (Nat.mod_upper_bound (total_messages m + 49) 50). lia.
Qed.

End Batcher.

Section Annotations.

Lemma annotation_for_severity svdPath k msg :
  severity_mapped (level msg) (annotation_level (annotation_for svdPath k msg)).
Proof.
  unfold severity_mapped, annotation_for. cbn [annotation_level].
  destruct (jsstring_eqb (level msg) (lit "info")) eqn:E1.
  - left. apply jsstring_eqb_eq in E1. auto.
  - destruct (jsstring_eqb (level msg) (lit "warning")) eqn:E2.
    + right. left. apply jsstring_eqb_eq in E2. auto.
    + right. right. repeat split; intros H; apply jsstring_eqb_eq in H; congruence.
Qed.

(** A map with one message under one key is emptied by one call, which
    returns the annotation of that message. *)
Lemma getAnnotations_single svdPath k msg :
  getAnnotations svdPath [(k, [msg])] = (Some [annotation_for svdPath k msg], []).
Proof.
  unfold getAnnotations.
  rewrite getAnnotations_loop_eq, getAnnotations_step_cons. cbn [length Nat.ltb Nat.leb rev app].
  cbn [Nat.eqb Map_delete].
  rewrite getAnnotations_loop_eq, getAnnotations_step_nil. reflexivity.
Qed.

Lemma Map_In_pop k v rest k' msg r x :
  rev v = x :: r ->
  Map_In k' msg ((k, rev r) :: rest) -> Map_In k' msg ((k, v) :: rest).
Proof.
  intros E (v' & [Hin|Hin] & Hmsg).
  - injection Hin as <- <-. exists v. split; [left; reflexivity|].
    rewrite <- (rev_involutive v), E. simpl. apply in_or_app. left. exact Hmsg.
  - exists v'. split; [right; exact Hin|exact Hmsg].
Qed.

Lemma Map_In_tail k v rest k' msg :
  Map_In k' msg rest -> Map_In k' msg ((k, v) :: rest).
Proof. intros (v' & Hin & Hmsg). exists v'. split; [right; exact Hin|exact Hmsg]. Qed.

(** A turn of the loop takes its message from the map and adds nothing to
    the map. *)
Lemma getAnnotations_step_In svdPath st st' :
  getAnnotations_step svdPath st = Some st' ->
  (forall k msg, Map_In k msg (snd st') -> Map_In k msg (snd st)) /\
  (fst st' = fst st \/
   exists k msg, Map_In k msg (snd st) /\
                 fst st' = fst st ++ [annotation_for svdPath k msg]).
Proof.
  destruct st as [anns [|[k v] rest]].
  - rewrite getAnnotations_step_nil. discriminate.
  - rewrite getAnnotations_step_cons.
    destruct (length anns <? 50); [|discriminate].
    intros [= <-]. destruct (rev v) as [|x r] eqn:E; cbn [fst snd].
    + split; [|left; reflexivity]. intros k' msg H.
      apply Map_In_tail, Map_delete_In with k. exact H.
    + split.
      * intros k' msg H. destruct (length r =? 0).
        -- apply Map_In_tail, Map_delete_In with k. exact H.
        -- apply Map_In_pop with r x; assumption.
      * right. exists k, x. split; [|reflexivity].
        exists v. split; [left; reflexivity|].
        rewrite <- (rev_involutive v), E. simpl. apply in_or_app. right. left. reflexivity.
Qed.

(** Aggregation stores a message at the end of the group of its line. *)
Lemma Map_set_set m k a b : Map_set (Map_set m k a) k b = Map_set m k b.
Proof.
  induction m as [|[k' v] m IH]; simpl.
  - rewrite number_eqb_refl. reflexivity.
  - destruct (number_eqb k' k) eqn:E; simpl.
    + rewrite number_eqb_refl. reflexivity.
    + rewrite E, IH. reflexivity.
Qed.

Lemma store_message_eq msgs msg :
  store_message msgs msg =
  Map_set msgs (line msg)
    (match Map_get msgs (line msg) with Some a => a | None => [] end ++ [msg]).
Proof.
  unfold store_message. destruct (length _ =? 0); [apply Map_set_set|reflexivity].
Qed.

Lemma store_message_first msg : store_message [] msg = [(line msg, [msg])].
Proof. rewrite store_message_eq. reflexivity. Qed.

Lemma Map_set_nonempty m k v :
  nonempty_groups m = true -> v <> [] -> nonempty_groups (Map_set m k v) = true.
Proof.
  unfold nonempty_groups. intros Hm Hv.
  assert (Hv' : negb (length v =? 0) = true) by (destruct v; [congruence|reflexivity]).
  induction m as [|[k' v'] m IH]; simpl.
  - rewrite Hv'. reflexivity.
  - simpl in Hm. apply andb_prop in Hm as [H1 H2].
    destruct (number_eqb k' k); simpl.
    + rewrite Hv'. exact H2.
    + rewrite H1. apply IH. exact H2.
Qed.

Lemma store_message_nonempty msgs msg :
  nonempty_groups msgs = true -> nonempty_groups (store_message msgs msg) = true.
Proof.
  intros H. rewrite store_message_eq. apply Map_set_nonempty; [exact H|].
  destruct (match Map_get msgs (line msg) with Some a => a | None => [] end);
    discriminate.
Qed.

Lemma parse_lines_nonempty lines : forall this msgs this' msgs',
  parse_lines this msgs lines = Returned (this', msgs') ->
  nonempty_groups msgs = true -> nonempty_groups msgs' = true.
Proof.
  induction lines as [|ln lines IH]; intros this msgs this' msgs'; simpl.
  - intros [= _ <-]. auto.
  - destruct (parseMessage this ln) as [[p [msg|]]|e]; [| |discriminate].
    + intros H Hne. apply (IH _ _ _ _ H). apply store_message_nonempty. exact Hne.
    + intros H Hne. apply (IH _ _ _ _ H). exact Hne.
Qed.

(** C10. Every key of the grouped-messages map holds a non-empty sequence
    of messages: in the map [parseMessages] returns, and, when it holds
    before a call of [getAnnotations], in the map the call leaves. *)
Theorem nonempty_groups_invariant :
  (forall this buffer result,
     parseMessages this buffer = Returned result ->
     nonempty_groups (messages result) = true) /\
  (forall svdPath m,
     nonempty_groups m = true ->
     nonempty_groups (snd (getAnnotations svdPath m)) = true).
Proof.
  split.
  - intros this buffer result. unfold parseMessages.
    destruct (parse_lines _ _ _) as [[p msgs]|e] eqn:E; [|discriminate].
    intros [= <-]. cbn [messages]. apply (parse_lines_nonempty _ _ _ E). reflexivity.
  - intros svdPath m Hne. unfold getAnnotations.
    assert (H : nonempty_groups (snd (getAnnotations_loop svdPath ([], m))) = true).
    { apply (getAnnotations_loop_rec svdPath
        (fun st r => nonempty_groups (snd st) = true -> nonempty_groups (snd r) = true)).
      - auto.
      - intros s s' r Hstep IH H. apply IH.
        exact (getAnnotations_step_nonempty _ _ Hstep H).
      - exact Hne. }
    destruct (getAnnotations_loop svdPath ([], m)) as [anns m']. exact H.
Qed.

End Annotations.

(* ===================================================================== *)
(** ** Two-line diagnostic blocks *)
(* ===================================================================== *)

Section Blocks.

Lemma Number_exact ns : (decimal ns < 2 ^ 53)%Z -> Number (Some ns) = Fin (decimal ns).
Proof.
  intros H. unfold Number, roundToDouble.
  destruct (Z.ltb_spec (decimal ns) (2 ^ 53)); [reflexivity|lia].
Qed.

(** C4, as amended.  A header line met by an idle parser and followed at
    once by another header line: the second line is taken as the
    description of the first.  One message is emitted, with the level, code
    and line of the first header and the trimmed second line as its text;
    the second line is not counted, and the parser is idle again. *)
Theorem header_after_header this h1 h2 m1 :
  state this = NOISE ->
  String_match h1 MESSAGE_PATTERN = Some m1 ->
  is_header_line h2 = true ->
  exists kw c p p',
    m1 1 = Some kw /\ m1 2 = Some c /\
    parseMessage this h1 = Returned (p, None) /\
    parseMessage p h2 =
      Returned (p', Some {| level := toLowerCase kw; code := c;
                            line := Number (m1 4); message := trim h2 |}) /\
    parser_stats p = count_level (toLowerCase kw) (parser_stats this) /\
    parser_stats p' = parser_stats p /\
    state p' = NOISE.
Proof.
  intros Hst Hm _.
  destruct (@parseMessage_header this _ m1 Hst Hm) as (kw & c & _ & H1 & H2 & Hp).
  set (p := after_header this kw c (Number (m1 4))) in *.
  exists kw, c, p, (set_state p NOISE).
  split; [exact H1|]. split; [exact H2|]. split; [exact Hp|].
  split; [apply parseMessage_description; reflexivity|].
  repeat split.
Qed.

End Blocks.

(* ===================================================================== *)
(** ** Aggregation over a buffer *)
(* ===================================================================== *)

Section Aggregation.

Lemma parse_lines_app l1 : forall this msgs l2,
  parse_lines this msgs (l1 ++ l2) =
  match parse_lines this msgs l1 with
  | Returned (p, m) => parse_lines p m l2
  | Thrown e => Thrown e
  end.
Proof.
  induction l1 as [|ln l1 IH]; intros this msgs l2; [reflexivity|].
  rewrite <- app_comm_cons, !parse_lines_cons.
  destruct (parseMessage this ln) as [[p [msg|]]|e]; [apply IH|apply IH|reflexivity].
Qed.

Lemma severity_of_no_marker ln : is_marker_line ln = false -> severity_of ln = None.
Proof.
  intros H. unfold severity_of.
  destruct (String_match ln MESSAGE_PATTERN) as [m|] eqn:E; [|reflexivity].
  apply MESSAGE_PATTERN_inv in E as [E _]. congruence.
Qed.

Lemma count_severity_cons kw ln lines :
  count_severity kw (ln :: lines) =
  (match severity_of ln with
   | Some k => if jsstring_eqb k kw then 1 else 0
   | None => 0
   end) + count_severity kw lines.
Proof.
  unfold count_severity. cbn [filter].
  destruct (severity_of ln) as [k|]; [|reflexivity].
  destruct (jsstring_eqb k kw); reflexivity.
Qed.

Lemma count_headers_no_marker st ln lines :
  is_marker_line ln = false -> count_headers st (ln :: lines) = count_headers st lines.
Proof.
  intros H. unfold count_headers. rewrite !count_severity_cons.
  rewrite (severity_of_no_marker _ H). reflexivity.
Qed.

Lemma count_headers_header st ln lines m kw :
  String_match ln MESSAGE_PATTERN = Some m -> m 1 = Some kw -> In kw keywords ->
  count_headers st (ln :: lines) =
  count_headers (count_level (toLowerCase kw) st) lines.
Proof.
  intros Hm H1 Hkw. unfold count_headers. rewrite !count_severity_cons.
  unfold severity_of. rewrite Hm, H1. rewrite (count_level_keyword st Hkw).
  cbn [notes errors warnings].
  destruct (jsstring_eqb kw (lit "INFO")), (jsstring_eqb kw (lit "ERROR")),
    (jsstring_eqb kw (lit "WARNING")); f_equal; lia.
Qed.

(** When no marker line directly follows another and every marker line is
    a header, each header is met by an idle parser and counted. *)
Lemma parse_lines_counts lines : forall this msgs,
  (state this = NOISE \/
   (state this = DESCRIPTION_LINE /\ head_is_no_marker lines = true)) ->
  no_adjacent_markers lines = true ->
  markers_are_headers lines = true ->
  exists this' msgs',
    parse_lines this msgs lines = Returned (this', msgs') /\
    parser_stats this' = count_headers (parser_stats this) lines.
Proof.
  induction lines as [|ln lines IH]; intros this msgs Hst Hadj Hwf.
  - exists this, msgs. split; [reflexivity|].
    unfold count_headers, count_severity. cbn. destruct (parser_stats this).
    cbn. f_equal; lia.
  - cbn [no_adjacent_markers] in Hadj. apply andb_prop in Hadj as [Hnext Hadj].
    cbn [markers_are_headers forallb] in Hwf. apply andb_prop in Hwf as [Hln Hwf].
    rewrite parse_lines_cons.
    destruct Hst as [Hst|[Hst Hhd]].
    + destruct (is_marker_line ln) eqn:Hmark.
      * cbn [implb] in Hln. unfold is_header_line in Hln.
        destruct (String_match ln MESSAGE_PATTERN) as [m|] eqn:Hm; [|discriminate].
        destruct (@parseMessage_header this ln m Hst Hm) as (kw & c & Hkw & H1 & H2 & Hp).
        rewrite Hp. cbv beta iota.
        destruct (IH (after_header this kw c (Number (m 4))) msgs) as (p' & m' & Hp' & Hs');
          [right; split; [reflexivity|]|exact Hadj|exact Hwf|].
        { destruct lines as [|ln' lines]; [reflexivity|].
          cbn [head_is_no_marker]. cbn [andb] in Hnext. exact Hnext. }
        exists p', m'. split; [exact Hp'|]. rewrite Hs'. cbn [parser_stats after_header].
        symmetry. apply (@count_headers_header _ ln lines m kw Hm H1 Hkw).
      * rewrite (parseMessage_noise this ln Hst Hmark). cbv beta iota.
        destruct (IH this msgs) as (p' & m' & Hp' & Hs'); [left; exact Hst|exact Hadj|exact Hwf|].
        exists p', m'. split; [exact Hp'|]. rewrite Hs'.
        symmetry. apply count_headers_no_marker. exact Hmark.
    + cbn [head_is_no_marker] in Hhd. apply negb_true_iff in Hhd.
      rewrite (parseMessage_description this ln Hst). cbv beta iota.
      destruct (IH (set_state this NOISE) (store_message msgs (pending_message this ln)))
        as (p' & m' & Hp' & Hs'); [left; reflexivity|exact Hadj|exact Hwf|].
      exists p', m'. split; [exact Hp'|]. rewrite Hs'. cbn [parser_stats set_state].
      symmetry. apply count_headers_no_marker. exact Hhd.
Qed.

(** C3, as amended.  For a buffer in which no marker line directly follows
    another marker line and every marker line matches the header pattern,
    aggregation succeeds and the final counters are the numbers of header
    lines of each severity in the buffer: notes count INFO, warnings count
    WARNING, errors count ERROR; a last header without a description line is
    counted like the others. *)
Theorem stats_count_headers buffer :
  no_adjacent_markers (split_nl buffer) = true ->
  markers_are_headers (split_nl buffer) = true ->
  exists result,
    SVDConv_parseMessages buffer = Returned (Some result) /\
    notes (stats result) = count_severity (lit "INFO") (split_nl buffer) /\
    warnings (stats result) = count_severity (lit "WARNING") (split_nl buffer) /\
    errors (stats result) = count_severity (lit "ERROR") (split_nl buffer).
Proof.
  intros Hadj Hwf. unfold SVDConv_parseMessages, parseMessages.
  destruct (@parse_lines_counts (split_nl buffer) (set_state new_SVDConvParser NOISE) [])
    as (p & msgs & Hp & Hs); [left; reflexivity|exact Hadj|exact Hwf|].
  rewrite Hp. eexists. split; [reflexivity|]. cbn [stats]. rewrite Hs.
  repeat split.
Qed.

Lemma parse_lines_state lines : forall this msgs this' msgs',
  parse_lines this msgs lines = Returned (this', msgs') ->
  state this <> MESSAGE_LINE -> state this' <> MESSAGE_LINE.
Proof.
  induction lines as [|ln lines IH]; intros this msgs this' msgs'.
  - intros [= <- _]. auto.
  - rewrite parse_lines_cons.
    destruct (parseMessage this ln) as [[p o]|e] eqn:E; [|discriminate].
    intros H Hst. assert (Hp : state p <> MESSAGE_LINE).
    { revert E. unfold parseMessage.
      destruct (ParserState_eqb (state _) MESSAGE_LINE) eqn:E1.
      - destruct (String_match ln MESSAGE_PATTERN) as [m|]; [|discriminate].
        destruct (m 1); [|discriminate]. destruct (m 2); [|discriminate].
        intros [= <- _]. discriminate.
      - destruct (ParserState_eqb (state _) DESCRIPTION_LINE) eqn:E2.
        + intros [= <- _]. discriminate.
        + intros [= <- _]. intros E3. rewrite E3 in E1. discriminate. }
    destruct o; apply (IH _ _ _ _ H Hp).
Qed.

(** C9, as amended.  A buffer whose last line, the last piece between
    line feeds, is a header line, the lines before it having been
    aggregated: aggregation of the buffer succeeds.  When the parser is idle
    at that header, the header is counted and no message is emitted for it:
    the map is the map of the lines before.  The split has no special case
    for a line feed at the end: the same buffer followed by one line feed
    has one more piece, the empty one, which is taken as the description of
    the header, so that aggregation returns one more message, with the
    level, code and line of the header and the empty text.  When the line
    before the last was itself read as a header, the last line is its
    description, with or without a line feed after it. *)
Theorem dangling_header buffer pre h p msgs :
  split_nl buffer = pre ++ [h] ->
  is_header_line h = true ->
  parse_lines new_SVDConvParser [] pre = Returned (p, msgs) ->
  exists kw c,
    severity_of h = Some kw /\ captures_of h 2 = Some c /\
    (state p = NOISE ->
       SVDConv_parseMessages buffer =
         Returned (Some {| messages := msgs;
                           stats := count_level (toLowerCase kw) (parser_stats p) |}) /\
       SVDConv_parseMessages (buffer ++ LF) =
         Returned (Some {| messages :=
                             store_message msgs
                               {| level := toLowerCase kw; code := c;
                                  line := Number (captures_of h 4);
                                  message := [] |};
                           stats := count_level (toLowerCase kw) (parser_stats p) |})) /\
    (state p = DESCRIPTION_LINE ->
       SVDConv_parseMessages buffer =
         Returned (Some {| messages := store_message msgs (pending_message p h);
                           stats := parser_stats p |}) /\
       SVDConv_parseMessages (buffer ++ LF) =
         Returned (Some {| messages := store_message msgs (pending_message p h);
                           stats := parser_stats p |})) /\
    (state p = NOISE \/ state p = DESCRIPTION_LINE).
Proof.
  intros Hsplit Hh Hpre. unfold is_header_line in Hh.
  unfold severity_of, captures_of.
  destruct (String_match h MESSAGE_PATTERN) as [m|] eqn:Hm; [|discriminate].
  destruct (MESSAGE_PATTERN_inv _ Hm) as (Hmark & kw & c & Hkw & H1 & H2).
  assert (Hstate : state p = NOISE \/ state p = DESCRIPTION_LINE).
  { pose proof (parse_lines_state _ _ _ Hpre) as H.
    destruct (state p); [exfalso; apply H; [discriminate|reflexivity]|auto|auto]. }
  pose proof (split_nl_trailing buffer) as Htrail.
  exists kw, c. split; [exact H1|]. split; [exact H2|].
  unfold SVDConv_parseMessages, parseMessages, LF.
  change (set_state new_SVDConvParser NOISE) with new_SVDConvParser.
  rewrite Htrail, Hsplit, !parse_lines_app, Hpre, !parse_lines_cons.
  split; [|split; [|exact Hstate]]; intros Hst.
  - destruct (@parseMessage_header p h m Hst Hm) as (kw' & c' & _ & H1' & H2' & Hp).
    assert (kw' = kw) as -> by congruence.
    assert (c' = c) as -> by congruence.
    rewrite Hp. cbv beta iota. split; [reflexivity|].
    change (parse_lines (after_header p kw c (Number (m 4))) msgs [])
      with (Returned (after_header p kw c (Number (m 4)), msgs)).
    cbv beta iota. rewrite parse_lines_cons.
    rewrite (@parseMessage_description (after_header p kw c (Number (m 4))) [] eq_refl).
    reflexivity.
  - rewrite (parseMessage_description p h Hst). cbv beta iota.
    split; [reflexivity|].
    change (parse_lines (set_state p NOISE) (store_message msgs (pending_message p h)) [])
      with (Returned (set_state p NOISE, store_message msgs (pending_message p h))).
    cbv beta iota. rewrite parse_lines_cons.
    rewrite (@parseMessage_noise (set_state p NOISE) [] eq_refl eq_refl).
    reflexivity.
Qed.

End Aggregation.

(* ===================================================================== *)
(** ** The run as a whole *)
(* ===================================================================== *)

Section Run.

Lemma run_eq w executable svdPath io :
  run w executable svdPath io =
  ({| trace := ((trace io ++ [StartGroup]) ++ [Exec executable svdPath]) ++ [EndGroup];
      requests := requests io |},
   run_outcome w executable svdPath).
Proof.
  unfold run, run_outcome, bind, finally, emit, lift, ret. cbn.
  destruct (tool w executable svdPath) as [[stdout stderr]|e]; cbn; [|reflexivity].
  destruct (length stderr =? 0); reflexivity.
Qed.

(** Without a result from [run], [main] sends nothing to the checks API;
    when [run] throws, so does [main]. *)
Lemma main_without_result w :
  (forall executable svdPath result,
     run_outcome w executable svdPath <> Returned (Some result)) ->
  api_requests (fst (run_main w)) = [] /\
  ((forall executable svdPath, exists e, run_outcome w executable svdPath = Thrown e) ->
   exists e, snd (run_main w) = Thrown e).
Proof.
  intros Hrun. unfold run_main, main, install, bind, lift, emit, throw, ret.
  destruct (negb _ && negb _); cbn -[run uploadResult].
  { split; [reflexivity|]. intros _. eexists. reflexivity. }
  destruct (tool_cache w) as [svdConvPath|e]; cbn -[run uploadResult];
    [|split; [reflexivity|intros _; eexists; reflexivity]].
  destruct (input_path w) as [svdPath|e]; cbn -[run uploadResult];
    [|split; [reflexivity|intros _; eexists; reflexivity]].
  destruct (input_token w) as [githubToken|e]; cbn -[run uploadResult];
    [|split; [reflexivity|intros _; eexists; reflexivity]].
  rewrite run_eq. specialize (Hrun svdConvPath svdPath).
  destruct (run_outcome w svdConvPath svdPath) as [[result|]|e] eqn:E;
    cbn -[run uploadResult].
  - exfalso. apply (Hrun result). reflexivity.
  - split; [reflexivity|]. intros H. destruct (H svdConvPath svdPath) as [e He].
    congruence.
  - split; [reflexivity|]. intros _. eexists. reflexivity.
Qed.

(** C7, as amended.  When the tool writes anything to standard error, [run]
    returns [null] whatever is on standard output, which is not parsed, and
    [main] sends no request to the checks API: no check run is created. *)
Theorem stderr_skips_parsing_and_upload w :
  (forall executable svdPath,
     exists stdout stderr,
       tool w executable svdPath = Returned (stdout, stderr) /\ stderr <> []) ->
  (forall executable svdPath io,
     exists io', run w executable svdPath io = (io', Returned None)) /\
  api_requests (fst (run_main w)) = [].
Proof.
  intros Htool.
  assert (Hrun : forall executable svdPath,
             run_outcome w executable svdPath = Returned None).
  { intros executable svdPath. unfold run_outcome.
    destruct (Htool executable svdPath) as (stdout & stderr & -> & Hne).
    destruct stderr; [congruence|reflexivity]. }
  split.
  - intros executable svdPath io. rewrite run_eq, Hrun. eexists. reflexivity.
  - apply main_without_result. intros executable svdPath result.
    rewrite Hrun. discriminate.
Qed.

(** C8, as amended.  A line that starts with the marker, does not match the
    header pattern and is met by an idle parser: [parseMessage] throws,
    aggregation of the buffer throws and returns no result, and [main],
    given that buffer by the tool, is rejected without a request to the
    checks API. *)
Theorem malformed_marker_line buffer pre ln post p msgs :
  split_nl buffer = pre ++ ln :: post ->
  parse_lines new_SVDConvParser [] pre = Returned (p, msgs) ->
  state p = NOISE ->
  is_marker_line ln = true ->
  is_header_line ln = false ->
  parseMessage p ln = Thrown TypeError /\
  SVDConv_parseMessages buffer = Thrown TypeError /\
  forall w,
    (forall executable svdPath, tool w executable svdPath = Returned (buffer, [])) ->
    api_requests (fst (run_main w)) = [] /\
    exists e, snd (run_main w) = Thrown e.
Proof.
  intros Hsplit Hpre Hst Hmark Hhdr. unfold is_header_line in Hhdr.
  destruct (String_match ln MESSAGE_PATTERN) as [m|] eqn:Hm; [discriminate|].
  pose proof (parseMessage_malformed p ln Hst Hmark Hm) as Hthrow.
  assert (Hagg : SVDConv_parseMessages buffer = Thrown TypeError).
  { unfold SVDConv_parseMessages, parseMessages.
    change (set_state new_SVDConvParser NOISE) with new_SVDConvParser.
    rewrite Hsplit, parse_lines_app, Hpre, parse_lines_cons, Hthrow. reflexivity. }
  split; [exact Hthrow|]. split; [exact Hagg|].
  intros w Htool.
  assert (Hrun : forall executable svdPath,
             run_outcome w executable svdPath = Thrown TypeError).
  { intros executable svdPath. unfold run_outcome. rewrite Htool. exact Hagg. }
  destruct (main_without_result w) as [Hreq Hrej].
  - intros executable svdPath result. rewrite Hrun. discriminate.
  - split; [exact Hreq|]. apply Hrej. intros executable svdPath.
    exists TypeError. apply Hrun.
Qed.

End Run.

(* ===================================================================== *)
(** ** The properties on concrete runs *)
(* ===================================================================== *)

Section Examples.

Lemma getAnnotations_batches_witness :
  (Map_ok example_map_120 = true /\ nonempty_groups example_map_120 = true /\
   0 < total_messages example_map_120) /\
  drain (lit "file.svd") 3 example_map_120 = [] /\
  forall k, k < 3 -> drain (lit "file.svd") k example_map_120 <> [].
Proof.
  assert (Hok : Map_ok example_map_120 = true) by (vm_compute; reflexivity).
  assert (Hne : nonempty_groups example_map_120 = true) by (vm_compute; reflexivity).
  assert (Hpos : 0 < total_messages example_map_120) by (vm_compute; lia).
  split; [auto|].
  destruct (getAnnotations_batches (lit "file.svd") example_map_120) as [_ H].
  destruct (H Hok Hne) as [_ Hd]. exact (Hd Hpos).
Defined.

Lemma stats_count_headers_witness :
  exists result,
    SVDConv_parseMessages
      (join_nl [example_header_no_line; example_description;
                lit "noise"; example_header; example_description;
                example_header_error]) = Returned (Some result) /\
    notes (stats result) = 1 /\ warnings (stats result) = 1 /\
    errors (stats result) = 1.
Proof.
  apply (@stats_count_headers
           (join_nl [example_header_no_line; example_description;
                     lit "noise"; example_header; example_description;
                     example_header_error])); vm_compute; reflexivity.
Defined.

Lemma header_after_header_witness :
  exists p p',
    parseMessage new_SVDConvParser example_header = Returned (p, None) /\
    parseMessage p example_header_error =
      Returned (p', Some {| level := lit "warning"; code := lit "M305";
                            line := Fin 12;
                            message := example_header_error |}) /\
    parser_stats p' = {| notes := 0; errors := 0; warnings := 1 |} /\
    state p' = NOISE.
Proof.
  destruct (@header_after_header new_SVDConvParser example_header
              example_header_error (captures_of example_header))
    as (kw & c & p & p' & H1 & H2 & Hp & Hp' & Hs & Hs' & Hst);
    try (vm_compute; reflexivity).
  exists p, p'. injection H1 as <-. injection H2 as <-.
  split; [exact Hp|]. split; [exact Hp'|]. split; [|exact Hst].
  rewrite Hs', Hs. reflexivity.
Defined.

Lemma stderr_skips_parsing_and_upload_witness :
  (exists io', run (example_world example_header (lit "license error"))
                 (lit "SVDConv") (lit "file.svd")
                 {| trace := []; requests := 0 |} = (io', Returned None)) /\
  api_requests (fst (run_main (example_world example_header (lit "license error")))) = [].
Proof.
  destruct (@stderr_skips_parsing_and_upload
              (example_world example_header (lit "license error"))) as [Hrun Hmain].
  - intros executable svdPath. exists example_header, (lit "license error").
    split; [reflexivity|discriminate].
  - split; [apply Hrun|exact Hmain].
Defined.

Lemma malformed_marker_line_witness :
  SVDConv_parseMessages (join_nl [lit "noise"; example_malformed; lit "more"])
    = Thrown TypeError /\
  api_requests
    (fst (run_main (example_world
                      (join_nl [lit "noise"; example_malformed; lit "more"]) []))) = [] /\
  exists e,
    snd (run_main (example_world
                     (join_nl [lit "noise"; example_malformed; lit "more"]) [])) = Thrown e.
Proof.
  destruct (@malformed_marker_line
              (join_nl [lit "noise"; example_malformed; lit "more"])
              [lit "noise"] example_malformed [lit "more"] new_SVDConvParser [])
    as (_ & Hagg & Hmain); try (vm_compute; reflexivity).
  split; [exact Hagg|]. apply Hmain. intros executable svdPath. reflexivity.
Defined.

Lemma dangling_header_witness :
  SVDConv_parseMessages
    (join_nl [example_header; example_description; example_header_error]) =
    Returned (Some {| messages := [(Fin 12, [example_message 12])];
                      stats := {| notes := 0; errors := 1; warnings := 1 |} |}) /\
  SVDConv_parseMessages
    (join_nl [example_header; example_description; example_header_error] ++ LF) =
    Returned (Some {| messages :=
                        [(Fin 12, [example_message 12]);
                         (Fin 7, [{| level := lit "error"; code := lit "M202";
                                     line := Fin 7; message := [] |}])];
                      stats := {| notes := 0; errors := 1; warnings := 1 |} |}).
Proof.
  destruct (@dangling_header
              (join_nl [example_header; example_description; example_header_error])
              [example_header; example_description] example_header_error
              {| state := NOISE;
                 parser_stats := {| notes := 0; errors := 0; warnings := 1 |};
                 _level := lit "warning"; _code := lit "M305"; _line := Fin 12 |}
              [(Fin 12, [example_message 12])])
    as (kw & c & Hkw & Hc & Hidle & _); try (vm_compute; reflexivity).
  destruct (Hidle eq_refl) as [H1 H2].
  injection Hkw as <-. injection Hc as <-.
  split; [rewrite H1|rewrite H2]; vm_compute; reflexivity.
Defined.

Lemma nonempty_groups_invariant_witness :
  nonempty_groups (snd (getAnnotations (lit "file.svd") example_map_120)) = true.
Proof.
  destruct nonempty_groups_invariant as [_ H].
  apply H. vm_compute. reflexivity.
Defined.

(** The header of the first scenario of the specification matches the
    pattern and ends in [(Line 12)], yet the message has line [NaN]: the
    token after the code stops at the first space, and [ (Line 12)] does
    not follow it. *)
Lemma free_text_header_loses_line :
  is_header_line example_header_free_text = true /\
  SVDConv_parseMessages (join_nl [example_header_free_text; example_description]) =
    Returned (Some {| messages :=
                        [(NaN, [{| level := lit "warning"; code := lit "M305";
                                   line := NaN;
                                   message := lit "Field size exceeds register width." |}])];
                      stats := {| notes := 0; errors := 0; warnings := 1 |} |}) /\
  NaN <> Fin 12.
Proof. split; [|split]; [vm_compute; reflexivity ..|discriminate]. Qed.

(** Two INFO header lines in a row: the buffer has two INFO headers, the
    counter says one. *)
Lemma adjacent_headers_counted_once :
  count_severity (lit "INFO")
    (split_nl (join_nl [example_header_no_line; example_header_no_line])) = 2 /\
  exists result,
    SVDConv_parseMessages (join_nl [example_header_no_line; example_header_no_line])
      = Returned (Some result) /\
    notes (stats result) = 1.
Proof.
  split; [vm_compute; reflexivity|]. eexists. split; vm_compute; reflexivity.
Qed.

(** A header directly followed by a header: a message is emitted for the
    first, with the second header line as its text, and the second is not
    counted as an error. *)
Lemma second_header_becomes_description :
  is_header_line example_header = true /\
  is_header_line example_header_error = true /\
  SVDConv_parseMessages (join_nl [example_header; example_header_error]) =
    Returned (Some {| messages :=
                        [(Fin 12, [{| level := lit "warning"; code := lit "M305";
                                      line := Fin 12;
                                      message := example_header_error |}])];
                      stats := {| notes := 0; errors := 0; warnings := 1 |} |}).
Proof. repeat split; vm_compute; reflexivity. Qed.

(** A header without [(Line N)]: the message has line [NaN], not 0. *)
Lemma absent_line_is_NaN :
  captures_of example_header_no_line 4 = None /\
  exists p p' msg,
    parseMessage new_SVDConvParser example_header_no_line = Returned (p, None) /\
    parseMessage p example_description = Returned (p', Some msg) /\
    line msg = NaN /\ line msg <> Fin 0.
Proof.
  split; [vm_compute; reflexivity|].
  do 3 eexists. split; [vm_compute; reflexivity|].
  split; [vm_compute; reflexivity|]. split; [reflexivity|discriminate].
Qed.

(** The tool writes to standard error: [main] is fulfilled and
    [core.setFailed] is not called. *)
Lemma stderr_run_reports_no_failure :
  snd (run_main (example_world example_header (lit "license error"))) = Returned tt /\
  reports_failure (run_main (example_world example_header (lit "license error"))) = false.
Proof. split; vm_compute; reflexivity. Qed.

(** A marker line that is no header, right after a header: no error, it is
    the description; aggregation returns a result and [main] goes on to the
    checks API. *)
Lemma marker_line_taken_as_description :
  is_marker_line example_malformed = true /\
  is_header_line example_malformed = false /\
  SVDConv_parseMessages (join_nl [example_header; example_malformed]) =
    Returned (Some {| messages :=
                        [(Fin 12, [{| level := lit "warning"; code := lit "M305";
                                      line := Fin 12;
                                      message := example_malformed |}])];
                      stats := {| notes := 0; errors := 0; warnings := 1 |} |}) /\
  length (api_requests
            (fst (run_main (example_world
                              (join_nl [example_header; example_malformed]) [])))) = 3.
Proof. repeat split; vm_compute; reflexivity. Qed.

(** A last header line followed by a line feed and nothing else: no
    description line follows it before the end of the input, yet a message
    is emitted for it, with the empty text. *)
Lemma final_line_feed_completes_header :
  is_header_line example_header_error = true /\
  SVDConv_parseMessages
    (join_nl [example_header; example_description; example_header_error] ++ LF) =
    Returned (Some {| messages :=
                        [(Fin 12, [example_message 12]);
                         (Fin 7, [{| level := lit "error"; code := lit "M202";
                                     line := Fin 7; message := [] |}])];
                      stats := {| notes := 0; errors := 1; warnings := 1 |} |}).
Proof. split; vm_compute; reflexivity. Qed.

(** The scenarios of the specification that the code meets. *)

(** Scenario 1, with a file name after the code. *)
Example scenario_one_block :
  SVDConv_parseMessages (join_nl [example_header; example_description]) =
    Returned (Some {| messages := [(Fin 12, [example_message 12])];
                      stats := {| notes := 0; errors := 0; warnings := 1 |} |}) /\
  getAnnotations (lit "file.svd") [(Fin 12, [example_message 12])] =
    (Some [{| path := lit "file.svd"; start_line := Fin 12; end_line := Fin 12;
              annotation_level := lit "warning";
              ann_message := lit "M305: Field size exceeds register width." |}], []).
Proof. split; vm_compute; reflexivity. Qed.

(** Scenario 2: a header at the very end of the buffer. *)
Example scenario_header_at_end :
  SVDConv_parseMessages example_header =
    Returned (Some {| messages := [];
                      stats := {| notes := 0; errors := 0; warnings := 1 |} |}).
Proof. vm_compute. reflexivity. Qed.

(** The same header followed by a line feed: the empty last piece is its
    description. *)
Example scenario_header_then_newline :
  SVDConv_parseMessages (example_header ++ [10%N]) =
    Returned (Some {| messages :=
                        [(Fin 12, [{| level := lit "warning"; code := lit "M305";
                                      line := Fin 12; message := [] |}])];
                      stats := {| notes := 0; errors := 0; warnings := 1 |} |}).
Proof. vm_compute. reflexivity. Qed.

(** Scenario 3: 120 messages leave in batches of 50, 50 and 20. *)
Example scenario_three_batches :
  List.map (fun n => length (batch (lit "file.svd") (drain (lit "file.svd") n example_map_120)))
    [0; 1; 2; 3] = [50; 50; 20; 0].
Proof. vm_compute. reflexivity. Qed.

(** A line number beyond [2^53] is rounded to a double. *)
Example line_number_rounded :
  Number (Some (lit "9007199254740993")) = Fin 9007199254740992.
Proof. vm_compute. reflexivity. Qed.

End Examples.

(* ===================================================================== *)
(** ** The order of the batches *)
(* ===================================================================== *)

Section BatchOrder.

Variable svdPath : jsstring.

Lemma pending_annotations_length m :
  length (pending_annotations svdPath m) = total_messages m.
Proof.
  unfold pending_annotations, total_messages.
  induction m as [|[k v] m IH]; [reflexivity|].
  cbn [flat_map List.map list_sum fst snd].
  rewrite length_app, length_map, length_rev, IH. reflexivity.
Qed.

(** A turn of the loop on a map with distinct keys moves the head of the
    pending annotations to the end of the batch, or drops an empty group. *)
Lemma getAnnotations_step_pending st st' :
  getAnnotations_step svdPath st = Some st' ->
  Map_ok (snd st) = true ->
  Map_ok (snd st') = true /\
  fst st' ++ pending_annotations svdPath (snd st') =
  fst st ++ pending_annotations svdPath (snd st).
Proof.
  destruct st as [anns [|[k v] rest]].
  - rewrite getAnnotations_step_nil. discriminate.
  - rewrite getAnnotations_step_cons.
    destruct (length anns <? 50); [|discriminate].
    intros [= <-] Hok. cbn in Hok. apply andb_prop in Hok as [Hk Hok].
    apply negb_true_iff in Hk.
    unfold pending_annotations. cbn [flat_map fst snd].
    destruct (rev v) as [|x r] eqn:E; cbn [fst snd].
    + rewrite (Map_delete_absent _ _ Hk). split; [exact Hok|reflexivity].
    + destruct (length r =? 0) eqn:El.
      * apply Nat.eqb_eq in El. destruct r; [|discriminate].
        rewrite (Map_delete_absent _ _ Hk). split; [exact Hok|].
        cbn. rewrite <- app_assoc. reflexivity.
      * split; [cbn; rewrite Hk, Hok; reflexivity|].
        cbn [flat_map fst snd List.map]. rewrite rev_involutive.
        rewrite <- !app_assoc. reflexivity.
Qed.

Lemma getAnnotations_loop_pending st :
  Map_ok (snd st) = true -> length (fst st) <= 50 ->
  let r := getAnnotations_loop svdPath st in
  Map_ok (snd r) = true /\
  fst r ++ pending_annotations svdPath (snd r) =
    fst st ++ pending_annotations svdPath (snd st) /\
  length (fst r) <= 50 /\
  (length (fst r) = 50 \/ snd r = []).
Proof.
  cbv zeta.
  apply (getAnnotations_loop_rec svdPath
    (fun st r =>
       Map_ok (snd st) = true -> length (fst st) <= 50 ->
       Map_ok (snd r) = true /\
       fst r ++ pending_annotations svdPath (snd r) =
         fst st ++ pending_annotations svdPath (snd st) /\
       length (fst r) <= 50 /\
       (length (fst r) = 50 \/ snd r = []))).
  - intros [anns m] Hstop Hok Hlen. cbn [fst snd] in *.
    repeat split; try assumption.
    destruct m as [|[k v] m]; [right; reflexivity|].
    rewrite getAnnotations_step_cons in Hstop.
    destruct (Nat.ltb_spec (length anns) 50); [discriminate|]. left. lia.
  - intros s s' r Hstep IH Hok Hlen.
    destruct (@getAnnotations_step_pending s s' Hstep Hok) as [Hok' Heq].
    pose proof (@getAnnotations_step_bound svdPath s s' Hstep Hlen) as Hlen'.
    destruct (IH Hok' Hlen') as (H1 & H2 & H3 & H4).
    repeat split; try assumption. congruence.
Qed.

(** One call on a map with distinct keys: the batch is the first 50 of the
    pending annotations, and the rest stays pending. *)
Lemma getAnnotations_pending m :
  Map_ok m = true ->
  batch svdPath m = firstn 50 (pending_annotations svdPath m) /\
  pending_annotations svdPath (snd (getAnnotations svdPath m)) =
    skipn 50 (pending_annotations svdPath m) /\
  Map_ok (snd (getAnnotations svdPath m)) = true.
Proof.
  intros Hok.
  destruct (@getAnnotations_loop_pending ([], m) Hok) as (H1 & H2 & H3 & H4);
    [simpl; lia|].
  unfold batch, getAnnotations.
  destruct (getAnnotations_loop svdPath ([], m)) as [anns m'].
  cbn [fst snd app] in *.
  assert (Hb : (match (if length anns =? 0 then None else Some anns) with
                | Some a => a
                | None => []
                end) = anns).
  { destruct anns; reflexivity. }
  rewrite Hb, <- H2. split; [|split; [|exact H1]].
  - destruct H4 as [H4| ->].
    + rewrite firstn_app, H4, Nat.sub_diag, firstn_O, app_nil_r.
      rewrite <- H4. symmetry. apply firstn_all.
    + cbn [pending_annotations flat_map]. rewrite app_nil_r.
      symmetry. apply firstn_all2. exact H3.
  - destruct H4 as [H4| ->].
    + rewrite skipn_app, H4, Nat.sub_diag, skipn_O.
      rewrite <- H4, skipn_all. reflexivity.
    + cbn [pending_annotations flat_map]. rewrite app_nil_r.
      symmetry. apply skipn_all2. exact H3.
Qed.

Lemma drain_pending n : forall m,
  Map_ok m = true ->
  Map_ok (drain svdPath n m) = true /\
  pending_annotations svdPath (drain svdPath n m) =
    skipn (50 * n) (pending_annotations svdPath m) /\
  concat (batches svdPath n m) = firstn (50 * n) (pending_annotations svdPath m).
Proof.
  unfold batches.
  induction n as [|n IH]; intros m Hok.
  - cbn [drain seq List.map concat]. rewrite Nat.mul_0_r. cbn. auto.
  - destruct (getAnnotations_pending m Hok) as (Hb & Hp & Hok').
    destruct (IH _ Hok') as (H1 & H2 & H3).
    cbn [drain]. split; [exact H1|]. split.
    + rewrite H2, Hp, skipn_skipn. f_equal. lia.
    + cbn [seq List.map concat]. rewrite <- seq_shift, map_map.
      cbn [drain].
      rewrite H3, Hp, Hb.
      replace (50 * S n) with (50 + 50 * n) by lia.
      rewrite <- (firstn_skipn 50 (pending_annotations svdPath m)) at 3.
      destruct (Nat.le_gt_cases 50 (length (pending_annotations svdPath m))) as [Hle|Hgt].
      * rewrite firstn_app, length_firstn, Nat.min_l by exact Hle.
        replace (50 + 50 * n - 50) with (50 * n) by lia.
        rewrite firstn_firstn, Nat.min_r by lia. reflexivity.
      * rewrite (skipn_all2 (n := 50)) by lia.
        rewrite firstn_nil, !app_nil_r.
        rewrite firstn_firstn, Nat.min_r by lia. reflexivity.
Qed.

(** X1.  On a map with distinct keys a call of [getAnnotations] returns the
    first 50 pending annotations, in order: keys in insertion order, and
    under a key from the newest message to the oldest; what it leaves in the
    map is the rest, in the same order. *)
Theorem getAnnotations_takes_first_50 m :
  Map_ok m = true ->
  batch svdPath m = firstn 50 (pending_annotations svdPath m) /\
  pending_annotations svdPath (snd (getAnnotations svdPath m)) =
    skipn 50 (pending_annotations svdPath m).
Proof.
  intros Hok. destruct (getAnnotations_pending m Hok) as (H1 & H2 & _). auto.
Qed.

(** X2.  Over repeated calls no message is annotated twice and none is
    lost: the batches of the first [n] calls, one after the other, are the
    first [50 * n] pending annotations of the map, so once [50 * n] reaches
    the number of messages they are all of them, each once. *)
Theorem batches_partition_messages n m :
  Map_ok m = true ->
  concat (batches svdPath n m) = firstn (50 * n) (pending_annotations svdPath m) /\
  (total_messages m <= 50 * n ->
   concat (batches svdPath n m) = pending_annotations svdPath m /\
   pending_annotations svdPath (drain svdPath n m) = []).
Proof.
  intros Hok. destruct (drain_pending n m Hok) as (_ & H2 & H3).
  split; [exact H3|]. intros Hn. rewrite <- pending_annotations_length in Hn.
  rewrite H3, H2. split; [apply firstn_all2|apply skipn_all2]; exact Hn.
Qed.

(** Message by message: the pending annotations are those of the pending
    messages, which are the messages of the map. *)
Lemma pending_annotations_messages m :
  pending_annotations svdPath m =
  List.map (fun km => annotation_for svdPath (fst km) (snd km)) (pending_messages m).
Proof.
  unfold pending_annotations, pending_messages.
  induction m as [|[k v] m IH]; [reflexivity|].
  cbn [flat_map fst snd]. rewrite map_app, map_map, IH. reflexivity.
Qed.

Lemma pending_messages_In m k msg :
  Map_In k msg m <-> In (k, msg) (pending_messages m).
Proof.
  unfold Map_In, pending_messages. rewrite in_flat_map. split.
  - intros (v & Hin & Hmsg). exists (k, v). split; [exact Hin|].
    cbn [fst snd]. apply in_map. apply -> in_rev. exact Hmsg.
  - intros ([k' v] & Hin & Hmsg). cbn [fst snd] in Hmsg.
    apply in_map_iff in Hmsg as (x & [= <- <-] & Hx).
    exists v. split; [exact Hin|apply in_rev; exact Hx].
Qed.

Lemma In_firstn (A : Type) n (l : list A) x : In x (firstn n l) -> In x l.
Proof.
  intros H. rewrite <- (firstn_skipn n l). apply in_or_app. left. exact H.
Qed.

Lemma Forall2_map_In (A B : Type) (R : A -> B -> Prop) (f : A -> B) l :
  (forall x, In x l -> R x (f x)) -> Forall2 R l (List.map f l).
Proof.
  induction l as [|x l IH]; intros H; [constructor|].
  cbn [List.map]. constructor; [apply H; left; reflexivity|].
  apply IH. intros y Hy. apply H. right. exact Hy.
Qed.

(** What holds of a message of the map and the annotation made from it
    holds, place by place, of the pending messages and the annotations of
    one call, and of all of them once enough calls are made. *)
Lemma batches_annotate (R : number * Message -> Annotation -> Prop) m :
  Map_ok m = true ->
  (forall k msg, Map_In k msg m -> R (k, msg) (annotation_for svdPath k msg)) ->
  Forall2 R (firstn 50 (pending_messages m)) (batch svdPath m) /\
  forall n, total_messages m <= 50 * n ->
    Forall2 R (pending_messages m) (concat (batches svdPath n m)).
Proof.
  intros Hok HR.
  assert (HR' : forall km, In km (pending_messages m) ->
                  R km (annotation_for svdPath (fst km) (snd km))).
  { intros [k msg] Hin. apply HR, pending_messages_In. exact Hin. }
  split.
  - destruct (getAnnotations_pending m Hok) as (Hb & _ & _).
    rewrite Hb, pending_annotations_messages, firstn_map.
    apply Forall2_map_In. intros km Hin. apply HR'. apply In_firstn with 50. exact Hin.
  - intros n Hn. destruct (drain_pending n m Hok) as (_ & _ & H3).
    rewrite H3, firstn_all2 by (rewrite pending_annotations_length; exact Hn).
    rewrite pending_annotations_messages. apply Forall2_map_In. exact HR'.
Qed.

End BatchOrder.

(* ===================================================================== *)
(** ** What the header pattern accepts *)
(* ===================================================================== *)

Section PatternShape.

Lemma star_inv_run (A : Type) p s (k : jsstring -> option A) r :
  star p s k = Some r ->
  exists run s', s = run ++ s' /\ forallb p run = true /\ k s' = Some r.
Proof.
  induction s as [|c s IH]; simpl.
  - intros H. exists [], []. auto.
  - destruct (p c) eqn:Hc.
    + destruct (star p s k) as [r'|] eqn:E.
      * intros [= ->]. destruct (IH eq_refl) as (run & s' & -> & Hrun & Hk).
        exists (c :: run), s'. simpl. rewrite Hc, Hrun. auto.
      * intros H. exists [], (c :: s). auto.
    + intros H. exists [], (c :: s). auto.
Qed.

Lemma rmatch_Plus_inv p s caps k m :
  rmatch (Plus p) s caps k = Some m ->
  exists run s',
    s = run ++ s' /\ run <> [] /\ forallb p run = true /\ k s' caps = Some m.
Proof.
  simpl. destruct s as [|c s]; [discriminate|].
  destruct (p c) eqn:Hc; [|discriminate].
  intros H. apply star_inv_run in H as (run & s' & -> & Hrun & Hk).
  exists (c :: run), s'. simpl. rewrite Hc, Hrun.
  split; [reflexivity|]. split; [discriminate|]. auto.
Qed.

Lemma consumed_app2 a b s : consumed (a ++ b ++ s) s = a ++ b.
Proof. rewrite app_assoc. apply consumed_app. Qed.

Lemma star_total (A : Type) p s (k : jsstring -> option A) :
  (forall s', k s' <> None) -> star p s k <> None.
Proof.
  intros Hk. induction s as [|c s IH]; simpl; [apply Hk|].
  destruct (p c); [|apply Hk].
  destruct (star p s k); [discriminate|apply Hk].
Qed.

(** Before a continuation that always succeeds the run is the longest one. *)
Lemma star_inv_max (A : Type) p s (k : jsstring -> option A) r :
  (forall s', k s' <> None) ->
  star p s k = Some r ->
  exists run s',
    s = run ++ s' /\ forallb p run = true /\ stops p s' = true /\ k s' = Some r.
Proof.
  intros Hk. induction s as [|c s IH]; simpl.
  - intros H. exists [], []. auto.
  - destruct (p c) eqn:Hc.
    + destruct (star p s k) as [r'|] eqn:E.
      * intros [= ->]. destruct (IH eq_refl) as (run & s' & -> & Hrun & Hstop & Hr).
        exists (c :: run), s'. simpl. rewrite Hc, Hrun. auto.
      * exfalso. apply (@star_total A p s k Hk). exact E.
    + intros H. exists [], (c :: s). simpl. rewrite Hc. auto.
Qed.

Lemma rmatch_Plus_inv_max p s caps k m :
  (forall s', k s' caps <> None) ->
  rmatch (Plus p) s caps k = Some m ->
  exists run s',
    s = run ++ s' /\ run <> [] /\ forallb p run = true /\ stops p s' = true /\
    k s' caps = Some m.
Proof.
  intros Hk. simpl. destruct s as [|c s]; [discriminate|].
  destruct (p c) eqn:Hc; [|discriminate].
  intros H. apply star_inv_max in H as (run & s' & -> & Hrun & Hstop & Hr); [|exact Hk].
  exists (c :: run), s'. simpl. rewrite Hc, Hrun.
  split; [reflexivity|]. split; [discriminate|]. auto.
Qed.

Lemma rmatch_Opt_total r s caps k :
  k s caps <> None -> rmatch (Opt r) s caps k <> None.
Proof.
  intros Hk. simpl. destruct (rmatch r s caps k); [discriminate|exact Hk].
Qed.

(** The line group, when it is tried on the text after the token. *)
Lemma line_group_inv s caps m :
  rmatch (Grp 3 (cat [Lit (lit " (Line "); Grp 4 (Plus isDigit); Lit (lit ")")]))
    s caps (fun s' caps' => rmatch (Lit []) s' caps' (fun _ c => Some c)) = Some m ->
  exists ns rest,
    s = lit " (Line " ++ ns ++ lit ")" ++ rest /\
    ns <> [] /\ forallb isDigit ns = true /\
    m 4 = Some ns /\ (forall i, i <> 3 -> i <> 4 -> m i = caps i).
Proof.
  unfold cat. cbn [fold_right]. rewrite rmatch_Grp. intros H.
  apply rmatch_Seq_Lit_inv in H as (s1 & -> & H).
  rewrite rmatch_Seq, rmatch_Grp in H.
  apply rmatch_Plus_inv in H as (ns & s2 & -> & Hne & Hns & H).
  rewrite consumed_app in H.
  apply rmatch_Seq_Lit_inv in H as (s3 & -> & H).
  rewrite !rmatch_Lit_nil in H. injection H as <-.
  exists ns, s3. repeat split; try assumption.
  intros i H3 H4. unfold set_capture.
  destruct (Nat.eqb_spec i 3); [contradiction|].
  destruct (Nat.eqb_spec i 4); [contradiction|]. reflexivity.
Qed.

(** The line group matches every text that starts with [ (Line N)]. *)
Lemma line_group_matches ns rest caps :
  ns <> [] -> forallb isDigit ns = true ->
  rmatch (Grp 3 (cat [Lit (lit " (Line "); Grp 4 (Plus isDigit); Lit (lit ")")]))
    (lit " (Line " ++ ns ++ lit ")" ++ rest) caps
    (fun s' caps' => rmatch (Lit []) s' caps' (fun _ c => Some c)) <> None.
Proof.
  intros Hns Dns. unfold cat. cbn [fold_right].
  rewrite rmatch_Grp, rmatch_Seq, rmatch_Lit_app, rmatch_Seq, rmatch_Grp.
  erewrite rmatch_Plus_run; [discriminate|exact Hns|exact Dns|reflexivity|].
  rewrite consumed_app, rmatch_Seq, rmatch_Lit_app, !rmatch_Lit_nil. reflexivity.
Qed.

(** The header pattern matches only lines made of the marker, a keyword, a
    code, the longest whitespace-free token and perhaps the line group,
    and its captures are those parts; capture 4 is set exactly when the
    line group directly follows the token. *)
Lemma MESSAGE_PATTERN_shape ln m :
  String_match ln MESSAGE_PATTERN = Some m ->
  exists kw ds tok sfx,
    ln = lit "*** " ++ kw ++ lit " " ++ (lit "M" ++ ds) ++ lit ": " ++ tok ++ sfx /\
    In kw keywords /\
    ds <> [] /\ forallb isDigit ds = true /\
    tok <> [] /\ forallb isNonSpace tok = true /\ stops isNonSpace sfx = true /\
    m 1 = Some kw /\ m 2 = Some (lit "M" ++ ds) /\
    ((m 4 = None /\
      forall ns rest,
        ns <> [] -> forallb isDigit ns = true ->
        sfx <> lit " (Line " ++ ns ++ lit ")" ++ rest) \/
     exists ns rest,
       sfx = lit " (Line " ++ ns ++ lit ")" ++ rest /\
       ns <> [] /\ forallb isDigit ns = true /\ m 4 = Some ns).
Proof.
  unfold String_match, MESSAGE_PATTERN. unfold cat at 1. cbn [fold_right]. intros H.
  apply rmatch_Seq_Lit_inv in H as (s1 & -> & H).
  apply rmatch_Seq_keyword_inv in H as (kw & s2 & Hkw & -> & H).
  apply rmatch_Seq_Lit_inv in H as (s3 & -> & H).
  rewrite rmatch_Seq, rmatch_Grp in H. unfold cat at 1 in H. cbn [fold_right] in H.
  apply rmatch_Seq_Lit_inv in H as (s4 & -> & H).
  rewrite rmatch_Seq in H.
  apply rmatch_Plus_inv in H as (ds & s5 & -> & Hds & Dds & H).
  rewrite rmatch_Lit_nil, consumed_app2 in H.
  apply rmatch_Seq_Lit_inv in H as (s6 & -> & H).
  rewrite rmatch_Seq in H.
  apply rmatch_Plus_inv_max in H as (tok & s7 & -> & Htok & Dtok & Hstop & H).
  2:{ intros s'. rewrite rmatch_Seq. apply rmatch_Opt_total.
      rewrite rmatch_Lit_nil. discriminate. }
  rewrite rmatch_Seq in H.
  exists kw, ds, tok, s7.
  split; [rewrite <- !app_assoc; reflexivity|].
  repeat (split; [assumption|]).
  cbn [rmatch] in H.
  match type of H with
  | match ?X with _ => _ end = _ => destruct X as [res|] eqn:E
  end.
  - injection H as ->.
    change (rmatch (Grp 3 (cat [Lit (lit " (Line "); Grp 4 (Plus isDigit); Lit (lit ")")]))
              s7 (set_capture 2 (lit "M" ++ ds) (set_capture 1 kw no_captures))
              (fun s' caps' => rmatch (Lit []) s' caps' (fun _ c => Some c)) = Some m) in E.
    apply line_group_inv in E as (ns & rest & -> & Hns & Dns & H4 & Hother).
    split; [rewrite Hother by discriminate; reflexivity|].
    split; [rewrite Hother by discriminate; reflexivity|].
    right. exists ns, rest. auto.
  - injection H as <-. split; [reflexivity|]. split; [reflexivity|]. left.
    split; [reflexivity|]. intros ns rest Hns Dns ->.
    change (rmatch (Grp 3 (cat [Lit (lit " (Line "); Grp 4 (Plus isDigit); Lit (lit ")")]))
              (lit " (Line " ++ ns ++ lit ")" ++ rest)
              (set_capture 2 (lit "M" ++ ds) (set_capture 1 kw no_captures))
              (fun s' caps' => rmatch (Lit []) s' caps' (fun _ c => Some c)) = None) in E.
    revert E. apply line_group_matches; assumption.
Qed.

(** A line in its parts whose token is not followed by the line group: the
    pattern matches, and capture 4 is not set. *)
Lemma MESSAGE_PATTERN_no_line kw ds tok sfx :
  header_parts kw ds tok sfx -> no_line_group sfx ->
  exists m,
    String_match (header_line kw ds tok sfx) MESSAGE_PATTERN = Some m /\
    m 1 = Some kw /\ m 2 = Some (lit "M" ++ ds) /\ m 4 = None.
Proof.
  intros (Hkw & Hds & Dds & Htok & Dtok & Hstop) Hno.
  eexists. split.
  - unfold header_line, String_match, MESSAGE_PATTERN. unfold cat at 1. cbn [fold_right].
    rewrite rmatch_Seq, rmatch_Lit_app.
    rewrite rmatch_Seq, rmatch_Grp.
    apply rmatch_keyword; [exact Hkw|]. rewrite consumed_app.
    rewrite rmatch_Seq, rmatch_Lit_app.
    rewrite rmatch_Seq, rmatch_Grp. unfold cat at 1. cbn [fold_right].
    rewrite rmatch_Seq.
    rewrite <- (app_assoc (lit "M") ds), rmatch_Lit_app.
    rewrite rmatch_Seq.
    apply rmatch_Plus_run; [exact Hds|exact Dds|reflexivity|].
    rewrite rmatch_Lit_nil.
    rewrite (app_assoc (lit "M") ds), consumed_app.
    rewrite rmatch_Seq, rmatch_Lit_app.
    rewrite rmatch_Seq.
    apply rmatch_Plus_run; [exact Htok|exact Dtok|exact Hstop|].
    rewrite rmatch_Seq. cbn [rmatch].
    match goal with
    | |- match ?X with _ => _ end = _ => destruct X as [res|] eqn:E
    end.
    + exfalso.
      change (rmatch (Grp 3 (cat [Lit (lit " (Line "); Grp 4 (Plus isDigit); Lit (lit ")")]))
                sfx (set_capture 2 (lit "M" ++ ds) (set_capture 1 kw no_captures))
                (fun s' caps' => rmatch (Lit []) s' caps' (fun _ c => Some c)) = Some res)
        in E.
      apply line_group_inv in E as (ns & rest & Hsfx & Hns & Dns & _).
      exact (Hno ns rest Hns Dns Hsfx).
    + reflexivity.
  - split; [reflexivity|]. split; reflexivity.
Qed.

End PatternShape.

(** X3.  What an idle parser reads off a line the header pattern matches:
    the line is the marker, a keyword, a code [M<digits>] and the longest
    whitespace-free token; the recorded level is the keyword in lower case
    and the recorded code is the code.  The line number is recorded exactly
    when [ (Line N)] directly follows that token; in every other case the
    recorded line is [NaN]. *)
Theorem header_fields_recorded this ln :
  state this = NOISE ->
  is_header_line ln = true ->
  exists kw ds tok sfx p,
    ln = lit "*** " ++ kw ++ lit " " ++ (lit "M" ++ ds) ++ lit ": " ++ tok ++ sfx /\
    In kw keywords /\
    ds <> [] /\ forallb isDigit ds = true /\
    tok <> [] /\ forallb isNonSpace tok = true /\ stops isNonSpace sfx = true /\
    parseMessage this ln = Returned (p, None) /\
    _level p = toLowerCase kw /\ _code p = lit "M" ++ ds /\
    ((_line p = NaN /\
      forall ns rest,
        ns <> [] -> forallb isDigit ns = true ->
        sfx <> lit " (Line " ++ ns ++ lit ")" ++ rest) \/
     exists ns rest,
       sfx = lit " (Line " ++ ns ++ lit ")" ++ rest /\
       ns <> [] /\ forallb isDigit ns = true /\ _line p = Number (Some ns)).
Proof.
  intros Hst Hh. unfold is_header_line in Hh.
  destruct (String_match ln MESSAGE_PATTERN) as [m|] eqn:Hm; [|discriminate].
  destruct (@MESSAGE_PATTERN_shape ln m Hm)
    as (kw & ds & tok & sfx & Hln & Hkw & Hds & Dds & Htok & Dtok & Hstop & H1 & H2 & H4).
  destruct (@parseMessage_header this ln m Hst Hm) as (kw' & c' & _ & H1' & H2' & Hp).
  assert (kw' = kw) as -> by congruence.
  assert (c' = lit "M" ++ ds) as -> by congruence.
  exists kw, ds, tok, sfx, (after_header this kw (lit "M" ++ ds) (Number (m 4))).
  repeat (split; [assumption|]).
  split; [reflexivity|]. split; [reflexivity|].
  cbn [_line after_header].
  destruct H4 as [[H4 Hno]|(ns & rest & Hsfx & Hns & Dns & H4)]; rewrite H4.
  - left. split; [reflexivity|exact Hno].
  - right. exists ns, rest. auto.
Qed.

Section DiagnosticBlock.

(** The line after a header, whatever it holds, completes the block. *)
Lemma block_parsed_header this header desc m kw c :
  state this = NOISE ->
  String_match header MESSAGE_PATTERN = Some m ->
  m 1 = Some kw -> m 2 = Some c ->
  block_parsed this header desc
    {| level := toLowerCase kw; code := c; line := Number (m 4); message := trim desc |}.
Proof.
  intros Hst Hm H1 H2.
  destruct (@parseMessage_header this _ m Hst Hm) as (kw' & c' & _ & H1' & H2' & Hp).
  assert (kw' = kw) as -> by congruence.
  assert (c' = c) as -> by congruence.
  remember (after_header this kw c (Number (m 4))) as p eqn:Ep.
  assert (Hd : parseMessage p desc =
               Returned (set_state p NOISE, Some (pending_message p desc)))
    by (apply parseMessage_description; subst p; reflexivity).
  exists p, (set_state p NOISE).
  split; [exact Hp|]. split; [rewrite Hd; subst p; reflexivity|].
  split; [reflexivity|].
  rewrite parse_lines_cons, Hp. cbv beta iota.
  rewrite parse_lines_cons, Hd. cbv beta iota.
  rewrite store_message_first. subst p. reflexivity.
Qed.

(** C2, as amended.  A two-line block met by an idle parser.  Every header
    line, that is every line the pattern matches, is made of the marker, a
    severity keyword, a code [M<digits>], the longest whitespace-free
    token after the code, and the rest; the block gives exactly one
    message, with the keyword in lower case, the code, and the trimmed
    second line; the line of the message is [Number(N)] when [ (Line N)]
    directly follows the token, and [NaN] when it does not.  Conversely
    every line of that form is a header line: with [ (Line N)] directly
    after the token the line of the message is [Number(N)], which is [N]
    itself below [2^53]; with anything else after the token, as when the
    text after the code has a space in it before the line group, the line
    of the message is [NaN]. *)
Theorem diagnostic_block :
  (forall this header desc,
     state this = NOISE ->
     is_header_line header = true ->
     exists kw ds tok sfx n,
       header = header_line kw ds tok sfx /\
       header_parts kw ds tok sfx /\
       block_parsed this header desc (block_message kw ds n desc) /\
       ((no_line_group sfx /\ n = NaN) \/
        exists ns rest,
          sfx = line_group ns rest /\ ns <> [] /\ forallb isDigit ns = true /\
          n = Number (Some ns))) /\
  (forall this kw ds tok ns rest desc,
     state this = NOISE ->
     In kw keywords ->
     ds <> [] -> forallb isDigit ds = true ->
     tok <> [] -> forallb isNonSpace tok = true ->
     ns <> [] -> forallb isDigit ns = true ->
     is_header_line (header_line kw ds tok (line_group ns rest)) = true /\
     block_parsed this (header_line kw ds tok (line_group ns rest)) desc
       (block_message kw ds (Number (Some ns)) desc) /\
     ((decimal ns < 2 ^ 53)%Z -> Number (Some ns) = Fin (decimal ns))) /\
  (forall this kw ds tok sfx desc,
     state this = NOISE ->
     header_parts kw ds tok sfx ->
     no_line_group sfx ->
     is_header_line (header_line kw ds tok sfx) = true /\
     block_parsed this (header_line kw ds tok sfx) desc (block_message kw ds NaN desc)).
Proof.
  split; [|split].
  - intros this header desc Hst Hh. unfold is_header_line in Hh.
    destruct (String_match header MESSAGE_PATTERN) as [m|] eqn:Hm; [|discriminate].
    destruct (@MESSAGE_PATTERN_shape header m Hm)
      as (kw & ds & tok & sfx & Hln & Hkw & Hds & Dds & Htok & Dtok & Hstop & H1 & H2 & H4).
    exists kw, ds, tok, sfx, (Number (m 4)).
    split; [exact Hln|]. split; [repeat split; assumption|].
    split; [exact (@block_parsed_header this header desc m kw _ Hst Hm H1 H2)|].
    destruct H4 as [[H4 Hno]|(ns & rest & Hsfx & Hns & Dns & H4)]; rewrite H4.
    + left. split; [exact Hno|reflexivity].
    + right. exists ns, rest. auto.
  - intros this kw ds tok ns rest desc Hst Hkw Hds Dds Htok Dtok Hns Dns.
    destruct (@MESSAGE_PATTERN_line kw ds tok ns rest Hkw Hds Dds Htok Dtok Hns Dns)
      as (m & Hm & H1 & H2 & H4).
    change (String_match (header_line kw ds tok (line_group ns rest)) MESSAGE_PATTERN
            = Some m) in Hm.
    split; [unfold is_header_line; rewrite Hm; reflexivity|].
    split; [|apply Number_exact].
    pose proof (@block_parsed_header this _ desc m kw _ Hst Hm H1 H2) as H.
    rewrite H4 in H. exact H.
  - intros this kw ds tok sfx desc Hst Hparts Hno.
    destruct (@MESSAGE_PATTERN_no_line kw ds tok sfx Hparts Hno) as (m & Hm & H1 & H2 & H4).
    split; [unfold is_header_line; rewrite Hm; reflexivity|].
    pose proof (@block_parsed_header this _ desc m kw _ Hst Hm H1 H2) as H.
    rewrite H4 in H. exact H.
Qed.

End DiagnosticBlock.

(* ===================================================================== *)
(** ** What aggregation returns *)
(* ===================================================================== *)

Section AggregationResult.

Lemma Map_get_In m k v : Map_get m k = Some v -> In (k, v) m.
Proof.
  induction m as [|[k' v'] m IH]; simpl; [discriminate|].
  destruct (number_eqb k' k) eqn:E.
  - intros [= ->]. apply number_eqb_eq in E. subst. left. reflexivity.
  - intros H. right. apply IH. exact H.
Qed.

Lemma Map_set_In_inv m k v k' v' :
  In (k', v') (Map_set m k v) -> (k' = k /\ v' = v) \/ In (k', v') m.
Proof.
  induction m as [|[k0 v0] m IH]; simpl.
  - intros [[= <- <-]|[]]. left. auto.
  - destruct (number_eqb k0 k).
    + intros [[= <- <-]|H]; [left; auto|right; right; exact H].
    + intros [H|H]; [right; left; exact H|].
      destruct (IH H) as [H'|H']; [left; exact H'|right; right; exact H'].
Qed.

Lemma Map_set_keys m k v a :
  existsb (number_eqb a) (List.map fst (Map_set m k v)) =
  number_eqb a k || existsb (number_eqb a) (List.map fst m).
Proof.
  induction m as [|[k0 v0] m IH]; simpl.
  - reflexivity.
  - destruct (number_eqb k0 k) eqn:E; simpl.
    + apply number_eqb_eq in E. subst k0.
      destruct (number_eqb a k); reflexivity.
    + rewrite IH. destruct (number_eqb a k0), (number_eqb a k); reflexivity.
Qed.

Lemma Map_set_ok m k v : Map_ok m = true -> Map_ok (Map_set m k v) = true.
Proof.
  induction m as [|[k0 v0] m IH]; simpl; [reflexivity|].
  intros H. apply andb_prop in H as [Hk Hm].
  destruct (number_eqb k0 k) eqn:E; simpl.
  - apply number_eqb_eq in E. subst k0. rewrite Hk, Hm. reflexivity.
  - rewrite Map_set_keys, E, (IH Hm). simpl. rewrite Hk. reflexivity.
Qed.

Lemma store_message_ok msgs msg : Map_ok msgs = true -> Map_ok (store_message msgs msg) = true.
Proof. intros H. rewrite store_message_eq. apply Map_set_ok. exact H. Qed.

Lemma store_message_In msgs msg k x :
  Map_In k x (store_message msgs msg) ->
  (k = line msg /\ x = msg) \/ Map_In k x msgs.
Proof.
  rewrite store_message_eq. intros (v & Hin & Hx).
  apply Map_set_In_inv in Hin as [[-> ->]|Hin].
  - apply in_app_or in Hx as [Hx|[<-|[]]]; [|left; auto].
    right. destruct (Map_get msgs (line msg)) as [a|] eqn:E; [|destruct Hx].
    exists a. split; [apply Map_get_In; exact E|exact Hx].
  - right. exists v. auto.
Qed.

Lemma store_message_total msgs msg :
  total_messages (store_message msgs msg) = S (total_messages msgs).
Proof.
  rewrite store_message_eq. unfold total_messages.
  induction msgs as [|[k v] msgs IH]; simpl.
  - reflexivity.
  - destruct (number_eqb k (line msg)); simpl.
    + rewrite length_app. simpl. lia.
    + rewrite IH. lia.
Qed.

(** The fields recorded by a header are those of a message. *)
Definition recorded_ok (this : SVDConvParser) : Prop :=
  state this = DESCRIPTION_LINE -> Message_ok (pending_message this []).

Lemma toLowerCase_keyword kw :
  In kw keywords -> In (toLowerCase kw) [lit "info"; lit "error"; lit "warning"].
Proof.
  intros [<-|[<-|[<-|[]]]]; [left|right; left|right; right; left]; reflexivity.
Qed.

Lemma count_level_total kw st :
  In kw keywords -> stats_total (count_level (toLowerCase kw) st) = S (stats_total st).
Proof.
  intros Hkw. rewrite (count_level_keyword st Hkw). unfold stats_total.
  cbn [notes errors warnings].
  destruct Hkw as [<-|[<-|[<-|[]]]];
    repeat match goal with
           | |- context [jsstring_eqb ?a ?b] =>
               let v := eval vm_compute in (jsstring_eqb a b) in
               change (jsstring_eqb a b) with v
           end; cbv iota; lia.
Qed.

(** One line: what the parser and the map keep. *)
Lemma parseMessage_keeps this ln p o :
  parseMessage this ln = Returned (p, o) ->
  state this <> MESSAGE_LINE ->
  recorded_ok this ->
  state p <> MESSAGE_LINE /\ recorded_ok p /\
  stats_total (parser_stats p) + pending_header this =
  stats_total (parser_stats this) + pending_header p +
    match o with Some _ => 1 | None => 0 end /\
  match o with
  | Some msg => Message_ok msg /\ state this = DESCRIPTION_LINE
  | None => True
  end.
Proof.
  intros Hp Hst Hrec. destruct (state this) eqn:Es; [congruence| |].
  - rewrite (parseMessage_description this ln Es) in Hp. injection Hp as <- <-.
    unfold pending_header, recorded_ok. rewrite Es. cbn [state set_state parser_stats].
    split; [discriminate|]. split; [discriminate|]. split; [lia|].
    split; [|reflexivity]. exact (Hrec Es).
  - destruct (is_marker_line ln) eqn:Hmark.
    + destruct (String_match ln MESSAGE_PATTERN) as [m|] eqn:Hm.
      * destruct (@MESSAGE_PATTERN_shape ln m Hm)
          as (kw & ds & tok & sfx & _ & Hkw & Hds & Dds & _ & _ & _ & H1 & H2 & H4).
        destruct (@parseMessage_header this ln m Es Hm) as (kw' & c' & _ & H1' & H2' & Hp').
        assert (kw' = kw) as -> by congruence.
        assert (c' = lit "M" ++ ds) as -> by congruence.
        rewrite Hp' in Hp. injection Hp as <- <-.
        unfold pending_header, recorded_ok. rewrite Es.
        cbn [state after_header parser_stats].
        rewrite (count_level_total _ Hkw).
        split; [discriminate|]. split; [|split; [lia|exact I]].
        intros _. unfold Message_ok. cbn [pending_message level code line _level _code _line].
        split; [apply toLowerCase_keyword; exact Hkw|].
        split; [exists ds; auto|].
        destruct H4 as [[-> _]|(ns & rest & _ & Hns & Dns & ->)];
          [left; reflexivity|right; exists ns; auto].
      * rewrite (parseMessage_malformed this ln Es Hmark Hm) in Hp. discriminate.
    + rewrite (parseMessage_noise this ln Es Hmark) in Hp. injection Hp as <- <-.
      unfold pending_header. rewrite Es.
      split; [congruence|]. split; [exact Hrec|]. split; [lia|exact I].
Qed.

(** All lines: the map keeps distinct keys, files every message under its
    line, holds only messages with well-formed fields, and grows by one per
    counted header, the last one excepted while its description is
    awaited. *)
Lemma parse_lines_keeps lines : forall this msgs p msgs',
  parse_lines this msgs lines = Returned (p, msgs') ->
  state this <> MESSAGE_LINE -> recorded_ok this ->
  Map_ok msgs = true -> filed_by_line msgs ->
  (forall k msg, Map_In k msg msgs -> Message_ok msg) ->
  Map_ok msgs' = true /\ filed_by_line msgs' /\
  (forall k msg, Map_In k msg msgs' -> Message_ok msg) /\
  stats_total (parser_stats p) + total_messages msgs + pending_header this =
  stats_total (parser_stats this) + total_messages msgs' + pending_header p.
Proof.
  induction lines as [|ln lines IH]; intros this msgs p msgs'.
  - intros [= <- <-]. auto.
  - rewrite parse_lines_cons.
    destruct (parseMessage this ln) as [[q o]|e] eqn:E; [|discriminate].
    intros H Hst Hrec Hok Hfiled Hmsgs.
    destruct (@parseMessage_keeps this ln q o E Hst Hrec) as (Hst' & Hrec' & Hcount & Ho).
    destruct o as [msg|].
    + destruct Ho as [Hmsg Hdesc].
      destruct (IH _ _ _ _ H Hst' Hrec') as (H1 & H2 & H3 & H4).
      * apply store_message_ok. exact Hok.
      * intros k x Hin. apply store_message_In in Hin as [[-> ->]|Hin];
          [reflexivity|apply Hfiled; exact Hin].
      * intros k x Hin. apply store_message_In in Hin as [[-> ->]|Hin];
          [exact Hmsg|apply (Hmsgs k); exact Hin].
      * split; [exact H1|]. split; [exact H2|]. split; [exact H3|].
        rewrite store_message_total in H4.
        assert (Hone : pending_header this = 1)
          by (unfold pending_header; rewrite Hdesc; reflexivity).
        cbv iota in Hcount. lia.
    + destruct (IH _ _ _ _ H Hst' Hrec' Hok Hfiled Hmsgs) as (H1 & H2 & H3 & H4).
      split; [exact H1|]. split; [exact H2|]. split; [exact H3|].
      cbv iota in Hcount. lia.
Qed.

Lemma parseMessages_keeps this buffer result :
  parseMessages this buffer = Returned result ->
  Map_ok (messages result) = true /\ filed_by_line (messages result) /\
  (forall k msg, Map_In k msg (messages result) -> Message_ok msg) /\
  (stats_total (stats result) =
     stats_total (parser_stats this) + total_messages (messages result) \/
   stats_total (stats result) =
     S (stats_total (parser_stats this) + total_messages (messages result))).
Proof.
  unfold parseMessages.
  destruct (parse_lines _ _ _) as [[p msgs]|e] eqn:E; [|discriminate].
  intros [= <-]. cbn [messages stats].
  destruct (@parse_lines_keeps _ _ _ _ _ E) as (H1 & H2 & H3 & H4).
  - discriminate.
  - intros H. discriminate H.
  - reflexivity.
  - intros k msg (v & [] & _).
  - intros k msg (v & [] & _).
  - split; [exact H1|]. split; [exact H2|]. split; [exact H3|].
    change (total_messages []) with 0 in H4. unfold pending_header in H4.
    cbn [state set_state parser_stats] in H4.
    destruct (state p); [lia|right; lia|left; lia].
Qed.

(** Counting by level. *)
Lemma keyword_eqb_lower kw kw' :
  In kw keywords -> In kw' keywords ->
  jsstring_eqb (toLowerCase kw') (toLowerCase kw) = jsstring_eqb kw' kw.
Proof.
  intros [<-|[<-|[<-|[]]]] [<-|[<-|[<-|[]]]]; vm_compute; reflexivity.
Qed.

Lemma counter_of_count_level kw kw' st :
  In kw keywords -> In kw' keywords ->
  counter_of kw (count_level (toLowerCase kw') st) =
  counter_of kw st + (if jsstring_eqb kw' kw then 1 else 0).
Proof.
  intros Hkw Hkw'. rewrite (count_level_keyword st Hkw'). unfold counter_of.
  destruct Hkw as [<-|[<-|[<-|[]]]]; destruct Hkw' as [<-|[<-|[<-|[]]]];
    repeat match goal with
           | |- context [jsstring_eqb ?a ?b] =>
               let v := eval vm_compute in (jsstring_eqb a b) in
               change (jsstring_eqb a b) with v
           end; cbv iota; cbn [notes errors warnings]; lia.
Qed.

Lemma Map_set_of_level lvl m k v :
  messages_of_level lvl (Map_set m k v) +
    length (filter (fun msg => jsstring_eqb (level msg) lvl)
              (match Map_get m k with Some a => a | None => [] end)) =
  messages_of_level lvl m + length (filter (fun msg => jsstring_eqb (level msg) lvl) v).
Proof.
  unfold messages_of_level. induction m as [|[k0 v0] m IH].
  - cbn. lia.
  - cbn [Map_set Map_get]. destruct (number_eqb k0 k); simpl; lia.
Qed.

Lemma store_message_of_level lvl msgs msg :
  messages_of_level lvl (store_message msgs msg) =
  messages_of_level lvl msgs + (if jsstring_eqb (level msg) lvl then 1 else 0).
Proof.
  rewrite store_message_eq.
  pose proof (@Map_set_of_level lvl msgs (line msg)
                (match Map_get msgs (line msg) with Some a => a | None => [] end ++ [msg]))
    as H.
  rewrite filter_app, length_app in H. cbn [filter] in H.
  destruct (jsstring_eqb (level msg) lvl); cbn [length] in H; lia.
Qed.

(** One line, by level: a header adds one to the counter of its severity
    and opens a header of that level; the description closes it and gives
    a message of that level. *)
Lemma parseMessage_levels kw this ln p o :
  In kw keywords ->
  parseMessage this ln = Returned (p, o) ->
  state this <> MESSAGE_LINE ->
  counter_of kw (parser_stats p) + pending_level kw this =
  counter_of kw (parser_stats this) + pending_level kw p +
    match o with
    | Some msg => if jsstring_eqb (level msg) (toLowerCase kw) then 1 else 0
    | None => 0
    end.
Proof.
  intros Hkw Hp Hst. destruct (state this) eqn:Es; [congruence| |].
  - rewrite (parseMessage_description this ln Es) in Hp. injection Hp as <- <-.
    unfold pending_level. rewrite Es.
    cbn [state set_state parser_stats pending_message level _level]. lia.
  - destruct (is_marker_line ln) eqn:Hmark.
    + destruct (String_match ln MESSAGE_PATTERN) as [m|] eqn:Hm.
      * destruct (@parseMessage_header this ln m Es Hm) as (kw' & c' & Hkw' & _ & _ & Hp').
        rewrite Hp' in Hp. injection Hp as <- <-.
        unfold pending_level. rewrite Es.
        cbn [state after_header parser_stats _level].
        rewrite (counter_of_count_level _ Hkw Hkw'), (keyword_eqb_lower Hkw Hkw'). lia.
      * rewrite (parseMessage_malformed this ln Es Hmark Hm) in Hp. discriminate.
    + rewrite (parseMessage_noise this ln Es Hmark) in Hp. injection Hp as <- <-. lia.
Qed.

Lemma parseMessage_state this ln p o :
  parseMessage this ln = Returned (p, o) ->
  state this <> MESSAGE_LINE ->
  state p <> MESSAGE_LINE /\
  (state p = DESCRIPTION_LINE <->
   (state this = NOISE /\ is_marker_line ln = true)) /\
  (state p = DESCRIPTION_LINE ->
   exists kw, In kw keywords /\ severity_of ln = Some kw /\ _level p = toLowerCase kw).
Proof.
  intros Hp Hst. destruct (state this) eqn:Es; [congruence| |].
  - rewrite (parseMessage_description this ln Es) in Hp. injection Hp as <- <-.
    cbn [state set_state]. split; [discriminate|].
    split; [split; [discriminate|intros [H _]; discriminate H]|discriminate].
  - destruct (is_marker_line ln) eqn:Hmark.
    + destruct (String_match ln MESSAGE_PATTERN) as [m|] eqn:Hm.
      * destruct (@parseMessage_header this ln m Es Hm) as (kw' & c' & Hkw' & H1 & _ & Hp').
        rewrite Hp' in Hp. injection Hp as <- <-. cbn [state after_header _level].
        split; [discriminate|]. split; [split; auto|].
        intros _. exists kw'. unfold severity_of. rewrite Hm. auto.
      * rewrite (parseMessage_malformed this ln Es Hmark Hm) in Hp. discriminate.
    + rewrite (parseMessage_noise this ln Es Hmark) in Hp. injection Hp as <- <-.
      rewrite Es. split; [discriminate|].
      split; [split; [discriminate|intros [_ H]; discriminate H]|discriminate].
Qed.

(** All lines, by level. *)
Lemma parse_lines_levels kw lines : forall this msgs p msgs',
  In kw keywords ->
  parse_lines this msgs lines = Returned (p, msgs') ->
  state this <> MESSAGE_LINE ->
  counter_of kw (parser_stats p) + messages_of_level (toLowerCase kw) msgs
    + pending_level kw this =
  counter_of kw (parser_stats this) + messages_of_level (toLowerCase kw) msgs'
    + pending_level kw p.
Proof.
  induction lines as [|ln lines IH]; intros this msgs p msgs' Hkw.
  - intros [= <- <-] _. reflexivity.
  - rewrite parse_lines_cons.
    destruct (parseMessage this ln) as [[q o]|e] eqn:E; [|discriminate].
    intros H Hst.
    pose proof (@parseMessage_levels kw this ln q o Hkw E Hst) as Hone.
    destruct (@parseMessage_state this ln q o E Hst) as [Hst' _].
    destruct o as [msg|].
    + pose proof (IH _ _ _ _ Hkw H Hst') as Hall.
      rewrite store_message_of_level in Hall. lia.
    + pose proof (IH _ _ _ _ Hkw H Hst') as Hall. lia.
Qed.

(** Whether a header is open after the lines is read off the lines. *)
Lemma parse_lines_open kw lines : forall this msgs p msgs',
  In kw keywords ->
  parse_lines this msgs lines = Returned (p, msgs') ->
  state this <> MESSAGE_LINE ->
  pending_level kw p =
  if ends_on_header (ParserState_eqb (state this) DESCRIPTION_LINE) lines then
    match lines with
    | [] => pending_level kw this
    | _ :: _ =>
        match severity_of (last lines []) with
        | Some k => if jsstring_eqb k kw then 1 else 0
        | None => 0
        end
    end
  else 0.
Proof.
  induction lines as [|ln lines IH]; intros this msgs p msgs' Hkw.
  - intros [= <- <-] Hst. cbn [ends_on_header]. unfold pending_level.
    destruct (state this); reflexivity.
  - rewrite parse_lines_cons.
    destruct (parseMessage this ln) as [[q o]|e] eqn:E; [|discriminate].
    intros H Hst.
    destruct (@parseMessage_state this ln q o E Hst) as (Hst' & Hopen & Hlevel).
    assert (Hrest : parse_lines q (match o with
                                   | Some msg => store_message msgs msg
                                   | None => msgs
                                   end) lines = Returned (p, msgs'))
      by (destruct o; exact H).
    rewrite (IH _ _ _ _ Hkw Hrest Hst').
    assert (Hb : ParserState_eqb (state q) DESCRIPTION_LINE =
                 if ParserState_eqb (state this) DESCRIPTION_LINE then false
                 else is_marker_line ln).
    { destruct (state q) eqn:Eq; [congruence| |].
      - destruct Hopen as [Hopen _]. destruct (Hopen eq_refl) as [-> ->]. reflexivity.
      - destruct (state this) eqn:Es; [congruence|reflexivity|].
        destruct (is_marker_line ln); [|reflexivity].
        destruct Hopen as [_ Hopen]. discriminate (Hopen (conj eq_refl eq_refl)). }
    cbn [ends_on_header]. rewrite <- Hb.
    destruct lines as [|ln' lines]; [|reflexivity].
    cbn [ends_on_header last].
    destruct (state q) eqn:Eq; [congruence| |reflexivity].
    cbn [ParserState_eqb].
    destruct (Hlevel eq_refl) as (kw' & Hkw' & Hsev & Hlvl).
    rewrite Hsev. unfold pending_level. rewrite Eq, Hlvl.
    rewrite (keyword_eqb_lower Hkw Hkw'). reflexivity.
Qed.

Lemma parseMessages_levels kw this buffer result :
  In kw keywords ->
  parseMessages this buffer = Returned result ->
  counter_of kw (stats result) =
  counter_of kw (parser_stats this)
    + messages_of_level (toLowerCase kw) (messages result)
    + unanswered_header kw (split_nl buffer).
Proof.
  intros Hkw. unfold parseMessages.
  destruct (parse_lines _ _ _) as [[p msgs]|e] eqn:E; [|discriminate].
  intros [= <-]. cbn [messages stats].
  assert (Hst : state (set_state this NOISE) <> MESSAGE_LINE) by discriminate.
  pose proof (@parse_lines_levels kw _ _ _ _ _ Hkw E Hst) as Hcount.
  pose proof (@parse_lines_open kw _ _ _ _ _ Hkw E Hst) as Hopen.
  cbn [state set_state ParserState_eqb parser_stats] in Hcount, Hopen.
  change (messages_of_level (toLowerCase kw) []) with 0 in Hcount.
  change (pending_level kw (set_state this NOISE)) with 0 in Hcount, Hopen.
  assert (Hu : pending_level kw p = unanswered_header kw (split_nl buffer)).
  { rewrite Hopen. unfold unanswered_header.
    destruct (split_nl buffer) as [|ln lines]; [reflexivity|].
    destruct (ends_on_header false (ln :: lines)); reflexivity. }
  lia.
Qed.

End AggregationResult.

(* ===================================================================== *)
(** ** The annotation of each message *)
(* ===================================================================== *)

Section AnnotatedMessages.

Variable svdPath : jsstring.

Lemma annotation_for_on k msg : annotated_on k (annotation_for svdPath k msg).
Proof.
  unfold annotated_on, annotation_for. cbn [start_line end_line]. split.
  - intros ->. auto.
  - intros Hk. destruct k; [congruence| |]; auto.
Qed.

(** C5, as amended.  A header line without the [(Line N)] group, met by an
    idle parser: the message built from it has line [NaN], and the
    annotation made from that message alone has [start_line = end_line =
    0].  In every map with distinct keys, the annotation [getAnnotations]
    makes from a message stored under [NaN] has [start_line = end_line =
    0], and the annotation of a message stored under another key has that
    key as both: for the messages of one call, and for all the messages of
    the map over the calls that drain it.  In the map [parseMessages]
    returns that holds of every message whose line is [NaN]. *)
Theorem line_absent :
  (forall this header m desc,
     state this = NOISE ->
     String_match header MESSAGE_PATTERN = Some m ->
     m 4 = None ->
     exists p p' msg a,
       parseMessage this header = Returned (p, None) /\
       parseMessage p desc = Returned (p', Some msg) /\
       line msg = NaN /\
       getAnnotations svdPath (store_message [] msg) = (Some [a], []) /\
       start_line a = Fin 0 /\ end_line a = Fin 0) /\
  (forall m,
     Map_ok m = true ->
     (forall k msg, Map_In k msg m -> In (k, msg) (pending_messages m)) /\
     Forall2 (fun km a => annotated_on (fst km) a)
       (firstn 50 (pending_messages m)) (batch svdPath m) /\
     forall n,
       total_messages m <= 50 * n ->
       Forall2 (fun km a => annotated_on (fst km) a)
         (pending_messages m) (concat (batches svdPath n m))) /\
  (forall this buffer result n,
     parseMessages this buffer = Returned result ->
     total_messages (messages result) <= 50 * n ->
     Forall2 (fun km a =>
                line (snd km) = NaN -> start_line a = Fin 0 /\ end_line a = Fin 0)
       (pending_messages (messages result))
       (concat (batches svdPath n (messages result)))).
Proof.
  split; [|split].
  - intros this header m desc Hst Hm H4.
    destruct (@parseMessage_header this _ m Hst Hm) as (kw & c & _ & H1 & H2 & Hp).
    rewrite H4 in Hp. cbn [Number] in Hp.
    set (p := after_header this kw c NaN) in *.
    exists p, (set_state p NOISE), (pending_message p desc),
      (annotation_for svdPath NaN (pending_message p desc)).
    split; [exact Hp|].
    split; [apply parseMessage_description; reflexivity|].
    split; [reflexivity|].
    split; [|split; reflexivity].
    rewrite store_message_first. apply getAnnotations_single.
  - intros m Hok.
    split; [intros k msg; apply pending_messages_In|].
    apply (@batches_annotate svdPath (fun km a => annotated_on (fst km) a) m Hok).
    intros k msg _. apply annotation_for_on.
  - intros this buffer result n H Hn.
    destruct (@parseMessages_keeps this buffer result H) as (Hok & Hfiled & _).
    apply (@batches_annotate svdPath
             (fun km a => line (snd km) = NaN -> start_line a = Fin 0 /\ end_line a = Fin 0)
             (messages result) Hok); [|exact Hn].
    intros k msg Hin. cbn [snd]. rewrite (Hfiled k msg Hin). intros ->.
    apply (annotation_for_on NaN msg). reflexivity.
Qed.

(** C6.  Whatever the code and the line of a message, its annotation has
    the level given by the fixed map info to notice, warning to warning,
    any other level to error, and the text [<code>: <message>].  This holds
    of a message batched alone; in every map with distinct keys it holds of
    every message: of those of one call and the annotations the call
    returns, place by place, and of all the messages of the map and the
    annotations of the calls that drain it.  In every map, every annotation
    of a batch is that of a message of the map. *)
Theorem annotation_severity_and_text :
  (forall k msg,
     exists a,
       getAnnotations svdPath [(k, [msg])] = (Some [a], []) /\
       severity_mapped (level msg) (annotation_level a) /\
       ann_message a = code msg ++ lit ": " ++ message msg) /\
  (forall m,
     Map_ok m = true ->
     (forall k msg, Map_In k msg m -> In (k, msg) (pending_messages m)) /\
     Forall2 (fun km a => annotates (snd km) a)
       (firstn 50 (pending_messages m)) (batch svdPath m) /\
     forall n,
       total_messages m <= 50 * n ->
       Forall2 (fun km a => annotates (snd km) a)
         (pending_messages m) (concat (batches svdPath n m))) /\
  (forall m,
     Forall (fun a =>
               exists k msg,
                 Map_In k msg m /\
                 severity_mapped (level msg) (annotation_level a) /\
                 ann_message a = code msg ++ lit ": " ++ message msg)
            (batch svdPath m)).
Proof.
  split; [|split].
  - intros k msg. exists (annotation_for svdPath k msg).
    split; [apply getAnnotations_single|].
    split; [apply annotation_for_severity|reflexivity].
  - intros m Hok.
    split; [intros k msg; apply pending_messages_In|].
    apply (@batches_annotate svdPath (fun km a => annotates (snd km) a) m Hok).
    intros k msg _. split; [apply annotation_for_severity|reflexivity].
  - intros m. unfold batch, getAnnotations.
    set (Q := fun a => exists k msg, Map_In k msg m /\
                severity_mapped (level msg) (annotation_level a) /\
                ann_message a = code msg ++ lit ": " ++ message msg).
    assert (H : Forall Q (fst (getAnnotations_loop svdPath ([], m)))).
    { apply (getAnnotations_loop_rec svdPath
        (fun st r =>
           (forall k msg, Map_In k msg (snd st) -> Map_In k msg m) ->
           Forall Q (fst st) -> Forall Q (fst r))).
      - auto.
      - intros s s' r Hstep IH Hsub HQ.
        destruct (getAnnotations_step_In _ _ Hstep) as [Hsub' Hfst].
        apply IH; [auto|].
        destruct Hfst as [->|(k & msg & Hin & ->)]; [exact HQ|].
        apply Forall_app. split; [exact HQ|]. constructor; [|constructor].
        exists k, msg. split; [auto|].
        split; [apply annotation_for_severity|reflexivity].
      - auto.
      - constructor. }
    destruct (getAnnotations_loop svdPath ([], m)) as [anns m']. cbn [fst] in *.
    destruct (length anns =? 0); [constructor|exact H].
Qed.

End AnnotatedMessages.

Section Upload.

Lemma upload_loop_eq w svdPath checkRunId msgs io :
  upload_loop w svdPath checkRunId msgs io =
  if 0 <? Map_size msgs then
    match getAnnotations svdPath msgs with
    | (None, msgs') => (io, Returned msgs')
    | (Some bucket, msgs') =>
        match request w (update_event checkRunId bucket) io with
        | (io', Thrown e) => (io', Thrown e)
        | (io', Returned _) => upload_loop w svdPath checkRunId msgs' io'
        end
    end
  else (io, Returned msgs).
Proof.
  funelim (upload_loop w svdPath checkRunId msgs io);
    repeat match goal with
           | H : upload_loop _ _ _ _ _ = _ |- _ => clear H
           | H : _ = upload_loop _ _ _ _ _ |- _ => clear H
           end;
    match goal with
    | He : (0 <? Map_size _) = _ |- _ => rewrite He
    end; try reflexivity;
    match goal with
    | Hb : getAnnotations _ _ = _ |- _ => rewrite Hb
    end; try reflexivity;
    unfold request, update_event; cbv beta zeta;
    match goal with
    | Hr : (if checks_api _ _ then _ else _) = _ |- _ => rewrite Hr
    end; reflexivity.
Qed.

Lemma batches_S svdPath n m :
  batches svdPath (S n) m =
  batch svdPath m :: batches svdPath n (snd (getAnnotations svdPath m)).
Proof.
  unfold batches. cbn [seq List.map drain].
  rewrite <- seq_shift, map_map. reflexivity.
Qed.

Lemma batch_of_result svdPath m :
  batch svdPath m =
  match fst (getAnnotations svdPath m) with Some b => b | None => [] end.
Proof. reflexivity. Qed.

Lemma getAnnotations_Some_bound svdPath m b m' :
  getAnnotations svdPath m = (Some b, m') -> b <> [] /\ length b <= 50.
Proof.
  intros H. pose proof (getAnnotations_bound svdPath m) as Hb.
  rewrite H in Hb. cbn [fst] in Hb. split; [|exact Hb].
  revert H. unfold getAnnotations.
  destruct (getAnnotations_loop svdPath ([], m)) as [anns m''].
  destruct anns; [discriminate|]. intros [= <- _]. discriminate.
Qed.

Lemma getAnnotations_None_empty svdPath m m' :
  getAnnotations svdPath m = (None, m') -> m' = [].
Proof.
  unfold getAnnotations. rewrite getAnnotations_loop_eq.
  assert (H : forall st r, r = getAnnotations_loop svdPath st ->
                length (fst r) < 50 -> snd r = []).
  { intros st r ->.
    apply (getAnnotations_loop_rec svdPath (fun st r => length (fst r) < 50 -> snd r = [])).
    - intros [anns [|[k v] rest]] Hstop Hlen; [reflexivity|].
      rewrite getAnnotations_step_cons in Hstop. cbn [fst] in Hlen.
      destruct (Nat.ltb_spec (length anns) 50); [discriminate|lia].
    - auto. }
  rewrite <- getAnnotations_loop_eq.
  specialize (H ([], m) _ eq_refl).
  destruct (getAnnotations_loop svdPath ([], m)) as [anns m''].
  destruct anns; [|discriminate]. intros [= <-]. apply H. simpl. lia.
Qed.

(** The requests of the loop: one update per batch, until the map is empty
    or a request fails. *)
Lemma upload_loop_spec w svdPath checkRunId : forall msgs io,
  exists n,
    trace (fst (upload_loop w svdPath checkRunId msgs io)) =
      trace io ++ List.map (update_event checkRunId) (batches svdPath n msgs) /\
    requests (fst (upload_loop w svdPath checkRunId msgs io)) = requests io + n /\
    Forall (fun b => b <> [] /\ length b <= 50) (batches svdPath n msgs) /\
    match snd (upload_loop w svdPath checkRunId msgs io) with
    | Returned m' =>
        m' = [] /\
        requests_succeed w (requests io) (requests io + n) /\
        (Map_ok msgs = true ->
         concat (batches svdPath n msgs) = pending_annotations svdPath msgs) /\
        (Map_ok msgs = true -> nonempty_groups msgs = true ->
         n = batches_needed (total_messages msgs))
    | Thrown e =>
        e = OtherError /\
        exists n', n = S n' /\
          requests_succeed w (requests io) (requests io + n') /\
          checks_api w (requests io + n') = false
    end.
Proof.
  intros msgs. remember (weight msgs) as k eqn:Hk. revert msgs Hk.
  induction k as [k IH] using lt_wf_ind. intros msgs Hk io.
  rewrite upload_loop_eq.
  destruct (0 <? Map_size msgs) eqn:Hsize.
  2:{ exists 0. cbn [fst snd batches seq List.map]. rewrite app_nil_r, Nat.add_0_r.
      destruct msgs; [|discriminate].
      repeat split; try constructor; auto.
      intros i H1 H2. lia. }
  destruct (getAnnotations svdPath msgs) as [[bucket|] msgs'] eqn:Hga.
  2:{ exists 0. cbn [fst snd batches seq List.map]. rewrite app_nil_r, Nat.add_0_r.
      split; [reflexivity|]. split; [reflexivity|]. split; [constructor|].
      split; [apply (getAnnotations_None_empty _ _ Hga)|].
      split; [intros i H1 H2; lia|]. split.
      - intros Hok. destruct (getAnnotations_pending svdPath msgs Hok) as (Hb & _ & _).
        rewrite batch_of_result, Hga in Hb. cbn [fst] in Hb.
        pose proof (pending_annotations_length svdPath msgs) as Hl.
        assert (Hz : length (pending_annotations svdPath msgs) = 0).
        { destruct (pending_annotations svdPath msgs) as [|a l]; [reflexivity|].
          discriminate Hb. }
        destruct (pending_annotations svdPath msgs); [reflexivity|discriminate].
      - intros Hok Hne.
        destruct (getAnnotations_grouped svdPath msgs Hok Hne) as (_ & _ & _ & Hiff).
        rewrite Hga in Hiff. cbn [fst] in Hiff.
        rewrite (proj1 Hiff eq_refl). reflexivity. }
  pose proof (getAnnotations_weight svdPath msgs Hsize) as Hlt.
  rewrite Hga in Hlt. cbn [snd] in Hlt.
  destruct (getAnnotations_Some_bound _ _ Hga) as [Hbne Hblen].
  assert (Hbatch : batch svdPath msgs = bucket)
    by (rewrite batch_of_result, Hga; reflexivity).
  assert (Hrest : snd (getAnnotations svdPath msgs) = msgs') by (rewrite Hga; reflexivity).
  unfold request. cbv beta zeta.
  destruct (checks_api w (requests io)) eqn:Hapi.
  - set (io1 := {| trace := trace io ++ [update_event checkRunId bucket];
                   requests := S (requests io) |}).
    destruct (IH (weight msgs') ltac:(subst k; exact Hlt) msgs' eq_refl io1)
      as (n & Ht & Hr & Hall & Hres).
    exists (S n). rewrite batches_S, Hbatch, Hrest.
    split; [rewrite Ht; cbn [io1 trace List.map]; rewrite <- app_assoc; reflexivity|].
    split; [rewrite Hr; cbn [io1 requests]; lia|].
    split; [constructor; [split; assumption|exact Hall]|].
    destruct (snd (upload_loop w svdPath checkRunId msgs' io1)) as [m'|e].
    + destruct Hres as (Hm' & Hsucc & Hcat & Hn).
      split; [exact Hm'|]. split.
      * intros i H1 H2. cbn [io1 requests] in Hsucc.
        destruct (Nat.eq_dec i (requests io)) as [->|Hne]; [exact Hapi|].
        apply Hsucc; lia.
      * split.
        -- intros Hok. destruct (getAnnotations_pending svdPath msgs Hok) as (Hb & Hp & Hok').
           rewrite Hrest in Hp, Hok'. cbn [concat]. rewrite (Hcat Hok'), Hp.
           rewrite <- Hbatch, Hb. apply firstn_skipn.
        -- intros Hok Hne.
           destruct (getAnnotations_grouped svdPath msgs Hok Hne) as (Hok' & Hne' & Htot & Hiff).
           rewrite Hrest in Hok', Hne', Htot. rewrite (Hn Hok' Hne'), Htot.
           assert (Hpos : total_messages msgs <> 0).
           { intros Hz. apply (total_messages_empty _ Hne) in Hz. subst msgs. discriminate. }
           unfold batches_needed.
           pose proof (Nat.div_mod_eq (total_messages msgs + 49) 50).
           pose proof (Nat.mod_upper_bound (total_messages msgs + 49) 50).
           pose proof (Nat.div_mod_eq (total_messages msgs - 50 + 49) 50).
           pose proof (Nat.mod_upper_bound (total_messages msgs - 50 + 49) 50).
           lia.
    + destruct Hres as (He & n' & -> & Hsucc & Hfail).
      split; [exact He|]. exists (S n'). split; [reflexivity|].
      cbn [io1 requests] in Hsucc, Hfail. split.
      * intros i H1 H2.
        destruct (Nat.eq_dec i (requests io)) as [->|Hne]; [exact Hapi|].
        apply Hsucc; lia.
      * rewrite <- Hfail. f_equal. lia.
  - exists 1. rewrite batches_S, Hbatch. cbn [batches seq List.map fst snd trace requests].
    split; [reflexivity|]. split; [lia|].
    split; [constructor; [split; assumption|constructor]|].
    split; [reflexivity|]. exists 0. split; [reflexivity|].
    rewrite Nat.add_0_r. split; [intros i H1 H2; lia|exact Hapi].
Qed.

(** [uploadResult], request by request. *)
Lemma uploadResult_spec w result svdPath options io :
  let create := ChecksCreate (head_sha options) (lit "in_progress") in
  let id := check_run_id w in
  let n0 := requests io in
  let r := uploadResult w result svdPath options io in
  (checks_api w n0 = false ->
   r = ({| trace := trace io ++ [create]; requests := S n0 |}, Thrown OtherError)) /\
  (checks_api w n0 = true ->
   exists n,
     let ups := List.map (update_event id) (batches svdPath n (messages result)) in
     Forall (fun b => b <> [] /\ length b <= 50) (batches svdPath n (messages result)) /\
     ((requests_succeed w (S n0) (S n0 + n) /\
       (Map_ok (messages result) = true ->
        concat (batches svdPath n (messages result)) =
          pending_annotations svdPath (messages result)) /\
       (Map_ok (messages result) = true -> nonempty_groups (messages result) = true ->
        n = batches_needed (total_messages (messages result))) /\
       ((checks_api w (S n0 + n) = true /\
         r = ({| trace := trace io ++ [create] ++ ups ++ [completed_event id (lit "neutral")];
                 requests := S n0 + n + 1 |}, Returned tt)) \/
        (checks_api w (S n0 + n) = false /\
         r = ({| trace := trace io ++ [create] ++ ups ++
                            [completed_event id (lit "neutral");
                             completed_event id (lit "cancelled")];
                 requests := S n0 + n + 2 |},
              if checks_api w (S n0 + n + 1) then Returned tt else Thrown OtherError)))) \/
      (exists n',
         n = S n' /\
         requests_succeed w (S n0) (S n0 + n') /\
         checks_api w (S n0 + n') = false /\
         r = ({| trace := trace io ++ [create] ++ ups ++ [completed_event id (lit "cancelled")];
                 requests := S n0 + n + 1 |},
              if checks_api w (S n0 + n) then Returned tt else Thrown OtherError)))).
Proof.
  cbv zeta. set (r := uploadResult w result svdPath options io).
  set (io1 := {| trace := trace io ++ [ChecksCreate (head_sha options) (lit "in_progress")];
                 requests := S (requests io) |}).
  assert (Hr : r =
    if checks_api w (requests io) then
      match upload_loop w svdPath (check_run_id w) (messages result) io1 with
      | (io2, Returned _) =>
          if checks_api w (requests io2) then
            ({| trace := trace io2 ++ [completed_event (check_run_id w) (lit "neutral")];
                requests := S (requests io2) |}, Returned tt)
          else
            ({| trace := (trace io2 ++ [completed_event (check_run_id w) (lit "neutral")])
                           ++ [completed_event (check_run_id w) (lit "cancelled")];
                requests := S (S (requests io2)) |},
             if checks_api w (S (requests io2)) then Returned tt else Thrown OtherError)
      | (io2, Thrown _) =>
          ({| trace := trace io2 ++ [completed_event (check_run_id w) (lit "cancelled")];
              requests := S (requests io2) |},
           if checks_api w (requests io2) then Returned tt else Thrown OtherError)
      end
    else (io1, Thrown OtherError)).
  { unfold r, uploadResult, bind, catch. unfold request at 1. cbv beta zeta.
    destruct (checks_api w (requests io)); [|reflexivity]. fold io1.
    destruct (upload_loop w svdPath (check_run_id w) (messages result) io1) as [io2 [m'|e]];
      unfold request, completed_event; cbv beta zeta; cbn [trace requests];
      [|reflexivity].
    destruct (checks_api w (requests io2)); reflexivity. }
  clearbody r. subst r.
  split; intros Hcreate; rewrite Hcreate; [reflexivity|].
  destruct (upload_loop_spec w svdPath (check_run_id w) (messages result) io1)
    as (n & Ht & Hreq & Hall & Hres).
  exists n. split; [exact Hall|].
  destruct (upload_loop w svdPath (check_run_id w) (messages result) io1) as [io2 o2].
  cbn [fst snd] in *. destruct io2 as [t2 r2]. cbn [trace requests io1] in Ht, Hreq, Hres.
  subst t2 r2. cbn [trace requests].
  destruct o2 as [m'|e].
  - destruct Hres as (_ & Hsucc & Hcat & Hn). left.
    split; [exact Hsucc|]. split; [exact Hcat|]. split; [exact Hn|].
    destruct (checks_api w (S (requests io) + n)) eqn:Hneutral.
    + left. split; [reflexivity|]. rewrite <- !app_assoc.
      do 2 f_equal. lia.
    + right. split; [reflexivity|].
      replace (S (S (requests io) + n)) with (S (requests io) + n + 1) by lia.
      rewrite <- !app_assoc. cbn [app]. do 2 f_equal. lia.
  - destruct Hres as (_ & n' & -> & Hsucc & Hfail). right.
    exists n'. split; [reflexivity|]. split; [exact Hsucc|]. split; [exact Hfail|].
    rewrite <- !app_assoc. cbn [app]. do 2 f_equal. lia.
Qed.

End Upload.

Section UploadProperties.

Lemma uploadResult_success_trace w result svdPath options io :
  (forall i, checks_api w i = true) ->
  Map_ok (messages result) = true -> nonempty_groups (messages result) = true ->
  uploadResult w result svdPath options io =
    ({| trace :=
          trace io ++ [ChecksCreate (head_sha options) (lit "in_progress")] ++
          List.map (update_event (check_run_id w))
            (batches svdPath (batches_needed (total_messages (messages result)))
               (messages result)) ++
          [completed_event (check_run_id w) (lit "neutral")];
        requests :=
          S (requests io) + batches_needed (total_messages (messages result)) + 1 |},
     Returned tt) /\
  concat (batches svdPath (batches_needed (total_messages (messages result)))
            (messages result)) =
    pending_annotations svdPath (messages result).
Proof.
  intros Hapi Hok Hne.
  destruct (uploadResult_spec w result svdPath options io) as [_ H]. cbv zeta in H.
  destruct (H (Hapi _)) as (n & _ & [(_ & Hcat & Hn & Hend)|(n' & _ & _ & Hfail & _)]).
  - rewrite <- (Hn Hok Hne). split; [|exact (Hcat Hok)].
    destruct Hend as [[_ Hr]|[Hfail _]]; [exact Hr|].
    rewrite Hapi in Hfail. discriminate.
  - rewrite Hapi in Hfail. discriminate.
Qed.

(** X10.  How [uploadResult] ends.  When the creation fails it throws and
    sends nothing else.  When the creation succeeds, the last request is
    always the completion of the check run: neutral when every request went
    through, cancelled right after the first request that failed, with
    nothing sent in between; and [uploadResult] throws exactly when that
    last request fails, so a failed update followed by a successful
    cancellation is not reported to the caller. *)
Theorem uploadResult_ends_with_completion w result svdPath options io :
  (checks_api w (requests io) = false ->
   uploadResult w result svdPath options io =
     ({| trace := trace io ++ [ChecksCreate (head_sha options) (lit "in_progress")];
         requests := S (requests io) |}, Thrown OtherError)) /\
  (checks_api w (requests io) = true ->
   exists evs conclusion last,
     trace (fst (uploadResult w result svdPath options io)) =
       trace io ++ ChecksCreate (head_sha options) (lit "in_progress") :: evs ++
       [completed_event (check_run_id w) conclusion] /\
     requests (fst (uploadResult w result svdPath options io)) = S last /\
     requests io < last /\
     snd (uploadResult w result svdPath options io) =
       (if checks_api w last then Returned tt else Thrown OtherError) /\
     ((conclusion = lit "neutral" /\ requests_succeed w (requests io) (S last)) \/
      (conclusion = lit "cancelled" /\
       checks_api w (last - 1) = false /\
       requests_succeed w (requests io) (last - 1)))).
Proof.
  destruct (uploadResult_spec w result svdPath options io) as [Hfail Hgo].
  cbv zeta in Hfail, Hgo. split; [exact Hfail|]. intros Hcreate.
  assert (Hfirst : forall k, requests_succeed w (S (requests io)) k ->
                             requests_succeed w (requests io) k).
  { intros k Hk i H1 H2. destruct (Nat.eq_dec i (requests io)) as [->|Hne];
      [exact Hcreate|apply Hk; lia]. }
  destruct (Hgo Hcreate) as (n & _ & [(Hsucc & _ & _ & Hend)|(n' & -> & Hsucc & Hbad & Hr)]).
  - destruct Hend as [[Hneutral Hr]|[Hneutral Hr]]; rewrite Hr; cbn [fst snd trace requests].
    + exists (List.map (update_event (check_run_id w)) (batches svdPath n (messages result))),
        (lit "neutral"), (S (requests io) + n).
      split; [reflexivity|]. split; [lia|]. split; [lia|].
      split; [rewrite Hneutral; reflexivity|]. left. split; [reflexivity|].
      intros i H1 H2. destruct (Nat.eq_dec i (S (requests io) + n)) as [->|Hne];
        [exact Hneutral|apply Hfirst with (S (requests io) + n); [exact Hsucc|lia|lia]].
    + exists (List.map (update_event (check_run_id w)) (batches svdPath n (messages result))
              ++ [completed_event (check_run_id w) (lit "neutral")]),
        (lit "cancelled"), (S (requests io) + n + 1).
      split; [rewrite <- !app_assoc; reflexivity|]. split; [lia|]. split; [lia|].
      split; [reflexivity|]. right. split; [reflexivity|].
      replace (S (requests io) + n + 1 - 1) with (S (requests io) + n) by lia.
      split; [exact Hneutral|apply Hfirst; exact Hsucc].
  - rewrite Hr. cbn [fst snd trace requests].
    exists (List.map (update_event (check_run_id w)) (batches svdPath (S n') (messages result))),
      (lit "cancelled"), (S (requests io) + S n').
    split; [reflexivity|]. split; [lia|]. split; [lia|].
    split; [reflexivity|]. right. split; [reflexivity|].
    replace (S (requests io) + S n' - 1) with (S (requests io) + n') by lia.
    split; [exact Hbad|apply Hfirst; exact Hsucc].
Qed.

Lemma batches_length svdPath n m : length (batches svdPath n m) = n.
Proof. unfold batches. rewrite length_map, length_seq. reflexivity. Qed.

Lemma Forall_update_ok id bs :
  Forall (fun b : list Annotation => b <> [] /\ length b <= 50) bs ->
  Forall (request_ok id) (List.map (update_event id) bs).
Proof.
  induction 1 as [|b bs [Hb Hl] _ IH]; [constructor|].
  cbn [List.map]. constructor; [|exact IH]. cbn. auto.
Qed.

Lemma uploadResult_added w result svdPath options io :
  exists added,
    trace (fst (uploadResult w result svdPath options io)) = trace io ++ added /\
    Forall (request_ok (check_run_id w)) added /\
    requests (fst (uploadResult w result svdPath options io)) =
      requests io + length added.
Proof.
  destruct (uploadResult_spec w result svdPath options io) as [Hfail Hgo].
  cbv zeta in Hfail, Hgo.
  destruct (checks_api w (requests io)) eqn:Hcreate.
  - destruct (Hgo eq_refl) as (n & Hall & [(_ & _ & _ & Hend)|(n' & -> & _ & _ & Hr)]).
    + pose proof (Forall_update_ok (check_run_id w) Hall) as Hups.
      destruct Hend as [[_ Hr]|[_ Hr]]; rewrite Hr; cbn [fst snd trace requests];
        eexists; (split; [reflexivity|]); split.
      * constructor; [reflexivity|]. apply Forall_app. split; [exact Hups|].
        constructor; [cbn; auto|constructor].
      * rewrite !length_app, length_map, batches_length. cbn [length]. lia.
      * constructor; [reflexivity|]. apply Forall_app. split; [exact Hups|].
        constructor; [cbn; auto|]. constructor; [cbn; auto|constructor].
      * rewrite !length_app, length_map, batches_length. cbn [length]. lia.
    + pose proof (Forall_update_ok (check_run_id w) Hall) as Hups.
      rewrite Hr. cbn [fst snd trace requests]. eexists. split; [reflexivity|]. split.
      * constructor; [reflexivity|]. apply Forall_app. split; [exact Hups|].
        constructor; [cbn; auto|constructor].
      * rewrite !length_app, length_map, batches_length. cbn [length]. lia.
  - rewrite (Hfail eq_refl). cbn [fst snd trace requests].
    exists [ChecksCreate (head_sha options) (lit "in_progress")].
    split; [reflexivity|]. split; [constructor; [reflexivity|constructor]|].
    cbn [length]. lia.
Qed.

(** X12.  The upload loop ends without a failed request only on an empty
    map: whatever the map it starts from, empty groups included, the map
    it leaves is empty. *)
Theorem upload_loop_leaves_map_empty w svdPath checkRunId msgs io m' :
  snd (upload_loop w svdPath checkRunId msgs io) = Returned m' -> m' = [].
Proof.
  intros H. destruct (upload_loop_spec w svdPath checkRunId msgs io) as (n & _ & _ & _ & Hres).
  rewrite H in Hres. apply Hres.
Qed.

(** X9.  When every request succeeds, [uploadResult] on a grouped-messages
    map (distinct keys, no empty group) holding [n] messages sends the
    creation, then [ceil(n / 50)] updates that carry the batches in order,
    then the neutral completion, and returns; the batches together are the
    annotations of all the messages, each once. *)
Theorem uploadResult_all_requests_succeed w result svdPath options io :
  (forall i, checks_api w i = true) ->
  Map_ok (messages result) = true -> nonempty_groups (messages result) = true ->
  uploadResult w result svdPath options io =
    ({| trace :=
          trace io ++ [ChecksCreate (head_sha options) (lit "in_progress")] ++
          List.map (update_event (check_run_id w))
            (batches svdPath (batches_needed (total_messages (messages result)))
               (messages result)) ++
          [completed_event (check_run_id w) (lit "neutral")];
        requests :=
          S (requests io) + batches_needed (total_messages (messages result)) + 1 |},
     Returned tt) /\
  concat (batches svdPath (batches_needed (total_messages (messages result)))
            (messages result)) =
    pending_annotations svdPath (messages result).
Proof. apply uploadResult_success_trace. Qed.

(** X11.  Whatever the map and whatever the checks API answers,
    [uploadResult] only adds requests to the trace, and only these: the
    creation, updates in progress of its own check run with at least 1 and
    at most 50 annotations, and completions of its own check run as
    neutral or cancelled. *)
Theorem uploadResult_requests_well_formed w result svdPath options io :
  exists added,
    trace (fst (uploadResult w result svdPath options io)) = trace io ++ added /\
    Forall (request_ok (check_run_id w)) added /\
    requests (fst (uploadResult w result svdPath options io)) =
      requests io + length added.
Proof. apply uploadResult_added. Qed.

End UploadProperties.

(* ===================================================================== *)
(** ** From the buffer to the annotations *)
(* ===================================================================== *)

Section Pipeline.

(** X4.  In the map [parseMessages] returns the keys are pairwise distinct
    and every message is filed under its own line, so the key
    [getAnnotations] reads the line from is the line of the message. *)
Theorem aggregation_groups_by_line this buffer result :
  parseMessages this buffer = Returned result ->
  Map_ok (messages result) = true /\ filed_by_line (messages result).
Proof.
  intros H. destruct (@parseMessages_keeps this buffer result H) as (H1 & H2 & _). auto.
Qed.


(** X6.  The counters and the messages agree, level by level: after
    [parseMessages] each counter has grown, from what the parser held
    before, by the number of messages of its level in the map returned,
    and by one more exactly when the input ends on a header of that
    severity whose description never came.  The counters are not reset by
    [parseMessages]; a fresh parser starts them at zero. *)
Theorem stats_match_messages this buffer result :
  parseMessages this buffer = Returned result ->
  notes (stats result) =
    notes (parser_stats this) + messages_of_level (lit "info") (messages result)
      + unanswered_header (lit "INFO") (split_nl buffer) /\
  errors (stats result) =
    errors (parser_stats this) + messages_of_level (lit "error") (messages result)
      + unanswered_header (lit "ERROR") (split_nl buffer) /\
  warnings (stats result) =
    warnings (parser_stats this) + messages_of_level (lit "warning") (messages result)
      + unanswered_header (lit "WARNING") (split_nl buffer).
Proof.
  intros H.
  split; [|split].
  - apply (@parseMessages_levels (lit "INFO") this buffer result); [|exact H].
    left. reflexivity.
  - apply (@parseMessages_levels (lit "ERROR") this buffer result); [|exact H].
    right. left. reflexivity.
  - apply (@parseMessages_levels (lit "WARNING") this buffer result); [|exact H].
    right. right. left. reflexivity.
Qed.

Lemma parse_lines_quiet lines : forall this msgs,
  state this = NOISE ->
  forallb (fun ln => negb (is_marker_line ln)) lines = true ->
  parse_lines this msgs lines = Returned (this, msgs).
Proof.
  induction lines as [|ln lines IH]; intros this msgs Hst Hq; [reflexivity|].
  cbn [forallb] in Hq. apply andb_prop in Hq as [Hln Hq].
  apply negb_true_iff in Hln.
  rewrite parse_lines_cons, (parseMessage_noise this ln Hst Hln).
  apply IH; assumption.
Qed.

(** X7.  A buffer without any line that starts with the marker, the empty
    buffer included, aggregates to an empty map and counters at zero; when
    the requests succeed, uploading that result creates the check run and
    completes it as neutral at once, with no update in between. *)
Theorem quiet_buffer_gives_empty_result buffer :
  quiet buffer = true ->
  SVDConv_parseMessages buffer =
    Returned (Some {| messages := [];
                      stats := {| notes := 0; errors := 0; warnings := 0 |} |}) /\
  forall w svdPath options io,
    (forall i, checks_api w i = true) ->
    uploadResult w {| messages := [];
                      stats := {| notes := 0; errors := 0; warnings := 0 |} |}
      svdPath options io =
    ({| trace := trace io ++ [ChecksCreate (head_sha options) (lit "in_progress");
                              completed_event (check_run_id w) (lit "neutral")];
        requests := requests io + 2 |}, Returned tt).
Proof.
  intros Hq. split.
  - unfold SVDConv_parseMessages, parseMessages.
    rewrite (parse_lines_quiet _ (set_state new_SVDConvParser NOISE) [] eq_refl Hq).
    reflexivity.
  - intros w svdPath options io Hapi.
    destruct (@uploadResult_success_trace w
                {| messages := [];
                   stats := {| notes := 0; errors := 0; warnings := 0 |} |}
                svdPath options io Hapi eq_refl eq_refl) as [Hr _].
    rewrite Hr. cbn. do 2 f_equal. lia.
Qed.

Lemma annotation_for_ok svdPath msg :
  Message_ok msg ->
  isNaN (start_line (annotation_for svdPath (line msg) msg)) = false /\
  In (annotation_level (annotation_for svdPath (line msg) msg))
     [lit "notice"; lit "error"; lit "warning"].
Proof.
  intros (Hlevel & _ & _). split.
  - cbn [start_line annotation_for]. destruct (line msg); reflexivity.
  - cbn [annotation_level annotation_for].
    destruct Hlevel as [<-|[<-|[<-|[]]]];
      [left|right; left|right; right; left]; reflexivity.
Qed.

(** X8.  From the buffer to the annotations: the batches [getAnnotations]
    returns for the map of [parseMessages], one after the other until the
    map is drained, hold one annotation for each message of the map, in
    the order the messages are taken.  The annotation of a message is on
    the file given, starts and ends on the line of the message, or on line
    0 when that line is [NaN], so never on [NaN], and has a level among
    notice, error and warning. *)
Theorem annotations_of_aggregation this buffer result svdPath n :
  parseMessages this buffer = Returned result ->
  total_messages (messages result) <= 50 * n ->
  Forall2 (fun km a =>
             Map_In (line (snd km)) (snd km) (messages result) /\
             path a = svdPath /\
             start_line a = (if isNaN (line (snd km)) then Fin 0 else line (snd km)) /\
             end_line a = start_line a /\
             isNaN (start_line a) = false /\
             In (annotation_level a) [lit "notice"; lit "error"; lit "warning"])
    (pending_messages (messages result))
    (concat (batches svdPath n (messages result))).
Proof.
  intros H Hn.
  destruct (@parseMessages_keeps this buffer result H) as (Hok & Hfiled & Hmsgs & _).
  match goal with
  | |- Forall2 ?R _ _ =>
      apply (@batches_annotate svdPath R (messages result) Hok); [|exact Hn]
  end.
  intros k msg Hin. cbn [snd].
  pose proof (Hfiled k msg Hin) as Hk. subst k.
  destruct (annotation_for_ok svdPath (Hmsgs _ _ Hin)) as [Hnan Hlvl].
  repeat split; assumption.
Qed.

End Pipeline.

(* ===================================================================== *)
(** ** [main] from start to end *)
(* ===================================================================== *)

Section Main.

Lemma request_ok_no_exec id added :
  Forall (request_ok id) added -> existsb is_exec added = false.
Proof.
  induction 1 as [|e added He _ IH]; [reflexivity|].
  cbn [existsb]. rewrite IH. destruct e; try reflexivity; destruct He.
Qed.

Lemma request_ok_is_request id added :
  Forall (request_ok id) added -> api_requests added = added.
Proof.
  unfold api_requests. induction 1 as [|e added He _ IH]; [reflexivity|].
  cbn [filter]. rewrite IH. destruct e; try reflexivity; destruct He.
Qed.

(** X13.  [main] starts the tool only when the platform is win32 or linux,
    the tool is installed and both inputs are given.  Otherwise it is
    rejected before the tool runs and before any request, and
    [core.setFailed] is called exactly when the platform is the reason.
    When it starts the tool, it does so once, with the installed path and
    the input path, inside a log group that is closed whatever the tool
    does. *)
Theorem main_starts_tool_when_ready w :
  (can_start w = false ->
   existsb is_exec (fst (run_main w)) = false /\
   api_requests (fst (run_main w)) = [] /\
   (exists e, snd (run_main w) = Thrown e) /\
   existsb (fun e => match e with SetFailed => true | _ => false end) (fst (run_main w)) =
     negb (jsstring_eqb (platform w) (lit "win32") || jsstring_eqb (platform w) (lit "linux"))) /\
  (can_start w = true ->
   exists svdConvPath svdPath rest,
     tool_cache w = Returned svdConvPath /\ input_path w = Returned svdPath /\
     fst (run_main w) =
       AddPath svdConvPath :: StartGroup :: Exec svdConvPath svdPath :: EndGroup :: rest /\
     existsb is_exec rest = false).
Proof.
  unfold can_start, run_main, main, install, bind, lift, emit, throw, ret.
  rewrite negb_orb.
  destruct (jsstring_eqb (platform w) (lit "win32") || jsstring_eqb (platform w) (lit "linux"))
    eqn:Hplat; rewrite <- negb_orb, Hplat; cbn -[run uploadResult].
  2:{ split; [|discriminate]. intros _. repeat split. eexists. reflexivity. }
  destruct (tool_cache w) as [svdConvPath|e]; cbn -[run uploadResult].
  2:{ split; [|discriminate]. intros _. repeat split. eexists. reflexivity. }
  destruct (input_path w) as [svdPath|e]; cbn -[run uploadResult].
  2:{ split; [|discriminate]. intros _. repeat split. eexists. reflexivity. }
  destruct (input_token w) as [githubToken|e]; cbn -[run uploadResult].
  2:{ split; [|discriminate]. intros _. repeat split. eexists. reflexivity. }
  split; [discriminate|]. intros _.
  exists svdConvPath, svdPath. rewrite run_eq.
  destruct (run_outcome w svdConvPath svdPath) as [[result|]|e]; cbn -[run uploadResult].
  - match goal with
    | |- context [uploadResult w result svdPath ?o ?i] =>
        destruct (@uploadResult_added w result svdPath o i) as (added & Ht & Hok & _);
        destruct (uploadResult w result svdPath o i) as [[t r] [[]|e]]
    end; cbn [fst trace] in Ht; subst t; cbn -[run uploadResult];
      eexists; (split; [reflexivity|]); (split; [reflexivity|]);
      (split; [reflexivity|]);
      pose proof (@request_ok_no_exec _ added Hok) as Hexec;
      cbn [existsb is_exec orb]; rewrite ?existsb_app, Hexec; reflexivity.
  - eexists. repeat split.
  - eexists. repeat split.
Qed.

(** X14.  A whole run that goes well.  On a supported platform, with the
    tool installed, both inputs given, nothing on standard error, a buffer
    that aggregates to [result] and a checks API that answers every
    request: [main] starts the tool in its log group, logs the three
    counters, creates the check run on the head commit of the pull request
    if the event has one and on the current commit otherwise, sends
    [ceil(n / 50)] updates for the [n] messages, completes the check run as
    neutral, logs twice and is fulfilled. *)
Theorem main_successful_run w svdConvPath svdPath githubToken buffer result :
  jsstring_eqb (platform w) (lit "win32") || jsstring_eqb (platform w) (lit "linux") = true ->
  tool_cache w = Returned svdConvPath ->
  input_path w = Returned svdPath ->
  input_token w = Returned githubToken ->
  tool w svdConvPath svdPath = Returned (buffer, []) ->
  SVDConv_parseMessages buffer = Returned (Some result) ->
  (forall i, checks_api w i = true) ->
  run_main w =
    ([AddPath svdConvPath; StartGroup; Exec svdConvPath svdPath; EndGroup;
      Info (InfoResults (errors (stats result)) (warnings (stats result))
              (notes (stats result)));
      ChecksCreate (chosen_sha w) (lit "in_progress")] ++
     List.map (update_event (check_run_id w))
       (batches svdPath (batches_needed (total_messages (messages result)))
          (messages result)) ++
     [completed_event (check_run_id w) (lit "neutral");
      Info (InfoPath svdConvPath); Info (InfoTest false)],
     Returned tt).
Proof.
  intros Hplat Hcache Hpath Htoken Htool Hparse Hapi.
  assert (Hres : parseMessages new_SVDConvParser buffer = Returned result).
  { revert Hparse. unfold SVDConv_parseMessages.
    destruct (parseMessages new_SVDConvParser buffer); [|discriminate].
    intros [= ->]. reflexivity. }
  destruct (@parseMessages_keeps _ _ _ Hres) as (Hok & _ & _ & _).
  assert (Hne : nonempty_groups (messages result) = true).
  { revert Hres. unfold parseMessages.
    destruct (parse_lines _ _ _) as [[p msgs]|e] eqn:E; [|discriminate].
    intros [= <-]. cbn [messages]. apply (parse_lines_nonempty _ _ _ E). reflexivity. }
  unfold run_main, main, install, bind, lift, emit, throw, ret.
  rewrite <- negb_orb, Hplat, Hcache. cbn -[run uploadResult].
  rewrite Hpath, Htoken. cbn -[run uploadResult].
  rewrite run_eq. unfold run_outcome. rewrite Htool, Hparse. cbn -[run uploadResult].
  match goal with
  | |- context [uploadResult w result svdPath ?o ?i] =>
      destruct (@uploadResult_success_trace w result svdPath o i Hapi Hok Hne) as [Hr _];
      rewrite Hr
  end.
  cbn -[batches batches_needed]. unfold chosen_sha.
  rewrite <- ?app_assoc. reflexivity.
Qed.

End Main.

(* ===================================================================== *)
(** ** Groups and blocks *)
(* ===================================================================== *)

Section Groups.

Lemma number_eqb_sym a b : number_eqb a b = number_eqb b a.
Proof.
  destruct (number_eqb a b) eqn:E.
  - apply number_eqb_eq in E. subst. symmetry. apply number_eqb_refl.
  - symmetry. apply not_true_is_false. intros H. apply number_eqb_eq in H.
    subst. rewrite number_eqb_refl in E. discriminate.
Qed.

Lemma Map_get_set m k v k' :
  Map_get (Map_set m k v) k' = if number_eqb k k' then Some v else Map_get m k'.
Proof.
  induction m as [|[k0 v0] m IH]; simpl.
  - destruct (number_eqb k k'); reflexivity.
  - destruct (number_eqb k0 k) eqn:E; simpl.
    + apply number_eqb_eq in E. subst k0. destruct (number_eqb k k'); reflexivity.
    + rewrite IH. destruct (number_eqb k0 k') eqn:E'; [|reflexivity].
      apply number_eqb_eq in E'. subst k0. rewrite number_eqb_sym, E. reflexivity.
Qed.

Lemma group_of_store_message msgs msg k :
  group_of (store_message msgs msg) k =
  group_of msgs k ++ (if number_eqb (line msg) k then [msg] else []).
Proof.
  unfold group_of. rewrite store_message_eq, Map_get_set.
  destruct (number_eqb (line msg) k) eqn:E; [|rewrite app_nil_r; reflexivity].
  apply number_eqb_eq in E. subst k. reflexivity.
Qed.

Lemma parse_lines_groups lines : forall this msgs p msgs' k,
  parse_lines this msgs lines = Returned (p, msgs') ->
  group_of msgs' k =
  group_of msgs k ++ filter (fun msg => number_eqb (line msg) k) (emitted this lines).
Proof.
  induction lines as [|ln lines IH]; intros this msgs p msgs' k.
  - intros [= _ <-]. cbn. rewrite app_nil_r. reflexivity.
  - rewrite parse_lines_cons. cbn [emitted].
    destruct (parseMessage this ln) as [[q [msg|]]|e]; [| |discriminate].
    + intros H. rewrite (IH _ _ _ _ k H), group_of_store_message. cbn [filter].
      destruct (number_eqb (line msg) k); rewrite <- app_assoc; reflexivity.
    + intros H. apply (IH _ _ _ _ k H).
Qed.

(** X15.  Aggregation neither loses nor reorders: for every line number,
    the group the returned map holds under it lists exactly the messages
    the parser emitted for that line, in the order of the buffer, and a
    line without messages has no key. *)
Theorem aggregation_keeps_messages_in_order this buffer result k :
  parseMessages this buffer = Returned result ->
  group_of (messages result) k =
    filter (fun msg => number_eqb (line msg) k)
      (emitted (set_state this NOISE) (split_nl buffer)) /\
  (Map_get (messages result) k = None <->
   filter (fun msg => number_eqb (line msg) k)
     (emitted (set_state this NOISE) (split_nl buffer)) = []).
Proof.
  unfold parseMessages.
  destruct (parse_lines _ _ _) as [[p msgs]|e] eqn:E; [|discriminate].
  intros [= <-]. cbn [messages].
  pose proof (parse_lines_groups _ _ _ k E) as Hg.
  change (group_of [] k) with (@nil Message) in Hg. cbn [app] in Hg.
  split; [exact Hg|]. rewrite <- Hg. unfold group_of.
  destruct (Map_get msgs k) as [v|] eqn:Hget.
  - split; [discriminate|]. intros ->. exfalso.
    pose proof (parse_lines_nonempty _ _ _ E eq_refl) as Hne.
    apply Map_get_In in Hget. unfold nonempty_groups in Hne.
    rewrite forallb_forall in Hne. specialize (Hne _ Hget). discriminate Hne.
  - split; reflexivity.
Qed.



End Groups.

(* ===================================================================== *)
(** ** The further properties on concrete runs *)
(* ===================================================================== *)

Section MoreExamples.

Lemma getAnnotations_takes_first_50_witness :
  Map_ok example_map_120 = true /\
  batch (lit "file.svd") example_map_120 =
    firstn 50 (pending_annotations (lit "file.svd") example_map_120) /\
  pending_annotations (lit "file.svd")
    (snd (getAnnotations (lit "file.svd") example_map_120)) =
    skipn 50 (pending_annotations (lit "file.svd") example_map_120).
Proof.
  assert (Hok : Map_ok example_map_120 = true) by (vm_compute; reflexivity).
  split; [exact Hok|].
  exact (getAnnotations_takes_first_50 (lit "file.svd") example_map_120 Hok).
Defined.

Lemma batches_partition_messages_witness :
  concat (batches (lit "file.svd") 3 example_map_120) =
    pending_annotations (lit "file.svd") example_map_120 /\
  pending_annotations (lit "file.svd") (drain (lit "file.svd") 3 example_map_120) = [].
Proof.
  assert (Hok : Map_ok example_map_120 = true) by (vm_compute; reflexivity).
  destruct (batches_partition_messages (lit "file.svd") 3 example_map_120 Hok) as [_ H].
  apply H. vm_compute. repeat constructor.
Defined.

Lemma header_fields_recorded_witness :
  exists kw ds tok sfx p,
    example_header =
      lit "*** " ++ kw ++ lit " " ++ (lit "M" ++ ds) ++ lit ": " ++ tok ++ sfx /\
    parseMessage new_SVDConvParser example_header = Returned (p, None) /\
    _level p = toLowerCase kw /\ _code p = lit "M" ++ ds.
Proof.
  destruct (@header_fields_recorded new_SVDConvParser example_header)
    as (kw & ds & tok & sfx & p & H1 & _ & _ & _ & _ & _ & _ & H2 & H3 & H4 & _);
    try (vm_compute; reflexivity).
  exists kw, ds, tok, sfx, p. auto.
Defined.

Lemma aggregation_groups_by_line_witness :
  Map_ok (messages example_result) = true /\ filed_by_line (messages example_result).
Proof.
  apply (@aggregation_groups_by_line new_SVDConvParser example_buffer example_result).
  vm_compute. reflexivity.
Defined.


Lemma stats_match_messages_witness :
  errors (stats example_result_open) =
    0 + messages_of_level (lit "error") (messages example_result_open) + 1 /\
  warnings (stats example_result_open) =
    0 + messages_of_level (lit "warning") (messages example_result_open) + 0.
Proof.
  destruct (@stats_match_messages new_SVDConvParser example_buffer_open
              example_result_open) as (_ & He & Hw); [vm_compute; reflexivity|].
  split; [exact He|exact Hw].
Defined.

Lemma quiet_buffer_gives_empty_result_witness :
  SVDConv_parseMessages (join_nl [lit "SVDConv 3.3.35"; lit "Found 0 Errors and 0 Warnings"]) =
    Returned (Some {| messages := [];
                      stats := {| notes := 0; errors := 0; warnings := 0 |} |}).
Proof.
  apply (@quiet_buffer_gives_empty_result
           (join_nl [lit "SVDConv 3.3.35"; lit "Found 0 Errors and 0 Warnings"])).
  vm_compute. reflexivity.
Defined.

Lemma annotations_of_aggregation_witness :
  Forall2 (fun km a =>
             Map_In (line (snd km)) (snd km) (messages example_result) /\
             path a = lit "file.svd" /\
             start_line a = (if isNaN (line (snd km)) then Fin 0 else line (snd km)) /\
             end_line a = start_line a /\
             isNaN (start_line a) = false /\
             In (annotation_level a) [lit "notice"; lit "error"; lit "warning"])
    (pending_messages (messages example_result))
    (concat (batches (lit "file.svd") 1 (messages example_result))).
Proof.
  apply (@annotations_of_aggregation new_SVDConvParser example_buffer example_result
           (lit "file.svd") 1).
  - vm_compute. reflexivity.
  - vm_compute. repeat constructor.
Defined.

Lemma diagnostic_block_witness :
  (exists kw ds tok sfx n,
     example_header = header_line kw ds tok sfx /\
     block_parsed new_SVDConvParser example_header example_description
       (block_message kw ds n example_description)) /\
  block_parsed new_SVDConvParser example_header example_description
    {| level := lit "warning"; code := lit "M305"; line := Fin 12;
       message := lit "Field size exceeds register width." |} /\
  block_parsed new_SVDConvParser example_header_free_text example_description
    {| level := lit "warning"; code := lit "M305"; line := NaN;
       message := lit "Field size exceeds register width." |}.
Proof.
  destruct diagnostic_block as (Hany & Hline & Hnone).
  split; [|split].
  - destruct (Hany new_SVDConvParser example_header example_description)
      as (kw & ds & tok & sfx & n & H1 & _ & H2 & _); try (vm_compute; reflexivity).
    exists kw, ds, tok, sfx, n. auto.
  - destruct (Hline new_SVDConvParser (lit "WARNING") (lit "305") (lit "file.svd")
                (lit "12") [] example_description) as (_ & H & _);
      try reflexivity; try discriminate.
    + right. right. left. reflexivity.
    + exact H.
  - destruct (Hnone new_SVDConvParser (lit "WARNING") (lit "305") (lit "Field")
                (lit " 'foo' (Line 12)") example_description) as (_ & H).
    + reflexivity.
    + split; [right; right; left; reflexivity|].
      repeat split; try reflexivity; discriminate.
    + intros ns rest _ _ H. discriminate H.
    + exact H.
Defined.

Lemma line_absent_witness :
  (exists p p' msg a,
     parseMessage new_SVDConvParser example_header_no_line = Returned (p, None) /\
     parseMessage p example_description = Returned (p', Some msg) /\
     line msg = NaN /\
     getAnnotations (lit "file.svd") (store_message [] msg) = (Some [a], []) /\
     start_line a = Fin 0 /\ end_line a = Fin 0) /\
  Forall2 (fun km a => annotated_on (fst km) a)
    (pending_messages example_map_two_keys)
    (concat (batches (lit "file.svd") 1 example_map_two_keys)) /\
  Forall2 (fun km a =>
             line (snd km) = NaN -> start_line a = Fin 0 /\ end_line a = Fin 0)
    (pending_messages (messages example_result))
    (concat (batches (lit "file.svd") 1 (messages example_result))).
Proof.
  destruct (line_absent (lit "file.svd")) as (Hone & Hmap & Hagg).
  split; [|split].
  - apply (Hone new_SVDConvParser example_header_no_line
             (captures_of example_header_no_line) example_description);
      vm_compute; reflexivity.
  - destruct (Hmap example_map_two_keys) as (_ & _ & Hall); [vm_compute; reflexivity|].
    apply Hall. vm_compute. repeat constructor.
  - apply (Hagg new_SVDConvParser example_buffer example_result 1).
    + vm_compute. reflexivity.
    + vm_compute. repeat constructor.
Defined.

Lemma annotation_severity_and_text_witness :
  (exists a,
     getAnnotations (lit "file.svd") [(Fin 12, [example_message 12])] = (Some [a], []) /\
     annotation_level a = lit "warning" /\
     ann_message a = lit "M305: Field size exceeds register width.") /\
  Forall2 (fun km a => annotates (snd km) a)
    (pending_messages example_map_two_keys)
    (concat (batches (lit "file.svd") 1 example_map_two_keys)).
Proof.
  destruct (annotation_severity_and_text (lit "file.svd")) as (Hone & Hmap & _).
  split.
  - destruct (Hone (Fin 12) (example_message 12)) as (a & Ha & Hsev & Htext).
    exists a. split; [exact Ha|]. split; [|exact Htext].
    destruct Hsev as [[Hl _]|[[_ Ha']|[_ [Hl _]]]].
    + discriminate Hl.
    + exact Ha'.
    + exfalso. apply Hl. reflexivity.
  - destruct (Hmap example_map_two_keys) as (_ & _ & Hall); [vm_compute; reflexivity|].
    apply Hall. vm_compute. repeat constructor.
Defined.

Lemma uploadResult_all_requests_succeed_witness :
  requests (fst (uploadResult (example_world_api (fun _ => true)) example_result_120
                   (lit "file.svd") example_options fresh_io)) = 5 /\
  snd (uploadResult (example_world_api (fun _ => true)) example_result_120
         (lit "file.svd") example_options fresh_io) = Returned tt.
Proof.
  destruct (@uploadResult_all_requests_succeed (example_world_api (fun _ => true))
              example_result_120 (lit "file.svd") example_options fresh_io) as [H _];
    try (vm_compute; reflexivity).
  rewrite H. split; vm_compute; reflexivity.
Defined.

Lemma uploadResult_ends_with_completion_witness :
  uploadResult (example_world_api (fun _ => false)) example_result
    (lit "file.svd") example_options fresh_io =
    ({| trace := [ChecksCreate (lit "0123abc") (lit "in_progress")]; requests := 1 |},
     Thrown OtherError) /\
  exists evs last,
    trace (fst (uploadResult (example_world_api (fun i => negb (i =? 1))) example_result
                  (lit "file.svd") example_options fresh_io)) =
      ChecksCreate (lit "0123abc") (lit "in_progress") :: evs ++
      [completed_event 7 (lit "cancelled")] /\
    snd (uploadResult (example_world_api (fun i => negb (i =? 1))) example_result
           (lit "file.svd") example_options fresh_io) =
      (if negb (last =? 1) then Returned tt else Thrown OtherError).
Proof.
  split.
  - destruct (@uploadResult_ends_with_completion (example_world_api (fun _ => false))
                example_result (lit "file.svd") example_options fresh_io) as [H _].
    exact (H eq_refl).
  - destruct (@uploadResult_ends_with_completion (example_world_api (fun i => negb (i =? 1)))
                example_result (lit "file.svd") example_options fresh_io) as [_ H].
    destruct (H eq_refl) as (evs & c & last & Ht & _ & Hlt & Hs & [[Hc Hall]|[Hc _]]).
    + exfalso. cbn [requests fresh_io] in Hlt, Hall.
      assert (Hone : negb (1 =? 1) = true) by (apply (Hall 1); lia).
      discriminate Hone.
    + subst c. exists evs, last. split; [exact Ht|exact Hs].
Defined.

Lemma upload_loop_leaves_map_empty_witness :
  snd (upload_loop (example_world_api (fun _ => true)) (lit "file.svd") 7
         [(Fin 12, [example_message 12]); (Fin 13, [])] fresh_io) = Returned [].
Proof.
  destruct (snd (upload_loop (example_world_api (fun _ => true)) (lit "file.svd") 7
                   [(Fin 12, [example_message 12]); (Fin 13, [])] fresh_io))
    as [m'|e] eqn:E.
  - rewrite (@upload_loop_leaves_map_empty _ _ _ _ _ m' E). reflexivity.
  - exfalso. revert E. vm_compute. discriminate.
Defined.

Lemma main_starts_tool_when_ready_witness :
  existsb is_exec (fst (run_main example_world_darwin)) = false /\
  api_requests (fst (run_main example_world_darwin)) = [] /\
  exists e, snd (run_main example_world_darwin) = Thrown e.
Proof.
  destruct (main_starts_tool_when_ready example_world_darwin) as [H _].
  destruct (H eq_refl) as (H1 & H2 & H3 & _). auto.
Defined.

Lemma main_successful_run_witness :
  snd (run_main (example_world_api (fun _ => true))) = Returned tt /\
  length (api_requests (fst (run_main (example_world_api (fun _ => true))))) = 3.
Proof.
  rewrite (@main_successful_run (example_world_api (fun _ => true))
             (lit "/opt/tool/SVDConv") (lit "file.svd") (lit "token")
             example_buffer example_result);
    try (vm_compute; reflexivity).
  split; vm_compute; reflexivity.
Defined.

Lemma aggregation_keeps_messages_in_order_witness :
  group_of (messages example_result) (Fin 12) = [example_message 12] /\
  Map_get (messages example_result) (Fin 7) = None.
Proof.
  destruct (@aggregation_keeps_messages_in_order new_SVDConvParser example_buffer
              example_result (Fin 12)) as [H _]; [vm_compute; reflexivity|].
  destruct (@aggregation_keeps_messages_in_order new_SVDConvParser example_buffer
              example_result (Fin 7)) as [_ H']; [vm_compute; reflexivity|].
  split; [rewrite H; vm_compute; reflexivity|].
  apply H'. vm_compute. reflexivity.
Defined.


End MoreExamples.
